(** * awwwards_scraper: a shallow embedding and its verified properties

    The program crawls the paginated listing of awwwards.com, collects the
    detail-page URLs of every listing page, fetches each detail page once and
    records its "Visit Site" link.

    Python [str] values are modelled by [string]: a sequence of code points
    below 256, one [ascii] each.  The collaborators that live outside the
    repository (the HTTP client, the HTML parser, the file system) are the
    fields of the class [World]; the standard library's [urllib.parse.urljoin]
    is transcribed in the module [Urllib]. *)

From Stdlib Require Import String Ascii List ZArith QArith Bool Lia DecimalString.
Import ListNotations.
Local Close Scope Q_scope.
Local Open Scope string_scope.
Local Open Scope list_scope.

(** ** Exceptions and results *)

Inductive exn : Type :=
| RequestException   (* requests.RequestException and its subclasses *)
| ValueError
| OSError.

Inductive result (A : Type) : Type :=
| Ok (a : A)
| Raise (e : exn).

Arguments Ok {A} a.
Arguments Raise {A} e.

Definition bind {A B : Type} (r : result A) (k : A -> result B) : result B :=
  match r with
  | Ok a => k a
  | Raise e => Raise e
  end.

Notation "'do' x <- r ; k" := (bind r (fun x => k))
  (at level 10, x name, r at level 100, k at level 200).

(** ** Python string operations *)

Module PyStr.

Definition ord (c : ascii) : N := N_of_ascii c.

Definition in_range (lo hi : N) (c : ascii) : bool :=
  ((lo <=? ord c) && (ord c <=? hi))%N.

(** [str.isspace] on one code point below 256. *)
Definition isspace (c : ascii) : bool :=
  in_range 9 13 c || in_range 28 32 c
  || (ord c =? 133)%N || (ord c =? 160)%N.

(** [str.lower] on one code point below 256. *)
Definition lower_char (c : ascii) : bool * ascii :=
  if in_range 65 90 c || (in_range 192 222 c && negb (ord c =? 215)%N)
  then (true, ascii_of_N (ord c + 32))
  else (false, c).

Fixpoint lower (s : string) : string :=
  match s with
  | EmptyString => EmptyString
  | String c s' => String (snd (lower_char c)) (lower s')
  end.

Fixpoint lstrip_by (p : ascii -> bool) (s : string) : string :=
  match s with
  | EmptyString => EmptyString
  | String c s' => if p c then lstrip_by p s' else s
  end.

Fixpoint rstrip_by (p : ascii -> bool) (s : string) : string :=
  match s with
  | EmptyString => EmptyString
  | String c s' =>
      match rstrip_by p s' with
      | EmptyString => if p c then EmptyString else String c EmptyString
      | r => String c r
      end
  end.

Definition strip_by (p : ascii -> bool) (s : string) : string :=
  rstrip_by p (lstrip_by p s).

(** [s.strip()] *)
Definition strip (s : string) : string := strip_by isspace s.

(** [sub in s] *)
Fixpoint contains (sub s : string) : bool :=
  if String.prefix sub s then true
  else match s with
       | EmptyString => false
       | String _ s' => contains sub s'
       end.

(** [c in s] for a one-character [c] *)
Fixpoint has_char (c : ascii) (s : string) : bool :=
  match s with
  | EmptyString => false
  | String a s' => Ascii.eqb a c || has_char c s'
  end.

(** [s.partition(c)]: the text before the first [c] and, when [c] occurs,
    the text after it. *)
Fixpoint partition (c : ascii) (s : string) : string * option string :=
  match s with
  | EmptyString => (EmptyString, None)
  | String a s' =>
      if Ascii.eqb a c then (EmptyString, Some s')
      else let (h, t) := partition c s' in (String a h, t)
  end.

(** [s.split(c)] for a one-character separator. *)
Fixpoint split (c : ascii) (s : string) : list string :=
  match s with
  | EmptyString => [EmptyString]
  | String a s' =>
      if Ascii.eqb a c then EmptyString :: split c s'
      else match split c s' with
           | h :: t => String a h :: t
           | [] => [String a EmptyString]
           end
  end.

(** The text before the last [c] and the text from the last [c] on. *)
Fixpoint rbreak (c : ascii) (s : string) : option (string * string) :=
  match s with
  | EmptyString => None
  | String a s' =>
      match rbreak c s' with
      | Some (h, t) => Some (String a h, t)
      | None => if Ascii.eqb a c then Some (EmptyString, s) else None
      end
  end.

(** [s.rpartition(c)[2]] *)
Definition after_last (c : ascii) (s : string) : string :=
  match rbreak c s with
  | Some (_, String _ t) => t
  | _ => s
  end.

(** [s.replace(c, "")] *)
Fixpoint remove_char (c : ascii) (s : string) : string :=
  match s with
  | EmptyString => EmptyString
  | String a s' =>
      if Ascii.eqb a c then remove_char c s' else String a (remove_char c s')
  end.

(** The two halves of [s] around its first character satisfying [p]; the
    second half starts with that character. *)
Fixpoint break (p : ascii -> bool) (s : string) : string * string :=
  match s with
  | EmptyString => (EmptyString, EmptyString)
  | String a s' =>
      if p a then (EmptyString, s)
      else let (h, t) := break p s' in (String a h, t)
  end.

Fixpoint all_chars (p : ascii -> bool) (s : string) : bool :=
  match s with
  | EmptyString => true
  | String a s' => p a && all_chars p s'
  end.

(** [s[:-1]] *)
Fixpoint drop_last (s : string) : string :=
  match s with
  | EmptyString => EmptyString
  | String a EmptyString => EmptyString
  | String a s' => String a (drop_last s')
  end.

(** Truth value of a string: non-empty. *)
Definition truthy (s : string) : bool := negb (s =? "").

(** [str(n)] for an integer. *)
Definition of_int (n : Z) : string := NilZero.string_of_int (Z.to_int n).

End PyStr.

(** ** urllib.parse (CPython 3.11), the part [urljoin] runs through *)

Module Urllib.
Import PyStr.

Definition mem (s : string) (l : list string) : bool :=
  existsb (String.eqb s) l.

Definition uses_relative : list string :=
  [""; "ftp"; "http"; "gopher"; "nntp"; "imap"; "wais"; "file"; "https";
   "shttp"; "mms"; "prospero"; "rtsp"; "rtspu"; "sftp"; "svn"; "svn+ssh";
   "ws"; "wss"].

Definition uses_netloc : list string :=
  [""; "ftp"; "http"; "gopher"; "nntp"; "telnet"; "imap"; "wais"; "file";
   "mms"; "https"; "shttp"; "snews"; "prospero"; "rtsp"; "rtspu"; "rsync";
   "svn"; "svn+ssh"; "sftp"; "nfs"; "git"; "git+ssh"; "ws"; "wss"].

Definition uses_params : list string :=
  [""; "ftp"; "hdl"; "prospero"; "http"; "imap"; "https"; "shttp"; "rtsp";
   "rtspu"; "sip"; "sips"; "mms"; "sftp"; "tel"].

Definition is_alpha (c : ascii) : bool :=
  in_range 65 90 c || in_range 97 122 c.

Definition scheme_char (c : ascii) : bool :=
  is_alpha c || in_range 48 57 c
  || Ascii.eqb c "+" || Ascii.eqb c "-" || Ascii.eqb c ".".

(** Membership in [_WHATWG_C0_CONTROL_OR_SPACE]. *)
Definition c0_control_or_space (c : ascii) : bool := (ord c <=? 32)%N.

(** The loop over [_UNSAFE_URL_BYTES_TO_REMOVE]. *)
Definition remove_unsafe (s : string) : string :=
  remove_char "010" (remove_char "013" (remove_char "009" s)).

Record SplitResult : Type := mkSplit {
  s_scheme : string;
  s_netloc : string;
  s_path : string;
  s_query : string;
  s_fragment : string
}.

Record ParseResult : Type := mkParse {
  scheme : string;
  netloc : string;
  path : string;
  params : string;
  query : string;
  fragment : string
}.

Definition is_delim (c : ascii) : bool :=
  Ascii.eqb c "/" || Ascii.eqb c "?" || Ascii.eqb c "#".

(** [_splitnetloc(url, 2)] for a [url] that starts with two slashes. *)
Definition splitnetloc2 (url : string) : string * string :=
  match url with
  | String _ (String _ rest) => break is_delim rest
  | _ => (EmptyString, url)
  end.

Section BracketedHosts.

(** [_check_bracketed_host] validates an IP literal with a regular
    expression and the [ipaddress] module; it is kept abstract:
    [true] when it returns, [false] when it raises [ValueError]. *)
Variable bracketed_host_ok : string -> bool.

Definition check_bracketed_netloc (netloc : string) : result unit :=
  let hostname_and_port := after_last "@" netloc in
  match partition "[" hostname_and_port with
  | (before_bracket, Some bracketed) =>
      if truthy before_bracket then Raise ValueError
      else
        let (hostname, port) :=
          match partition "]" bracketed with
          | (h, Some p) => (h, p)
          | (h, None) => (h, EmptyString)
          end in
        if truthy port && negb (String.prefix ":" port) then Raise ValueError
        else if bracketed_host_ok hostname then Ok tt else Raise ValueError
  | (_, None) =>
      let hostname := fst (partition ":" hostname_and_port) in
      if bracketed_host_ok hostname then Ok tt else Raise ValueError
  end.

(** The scheme test of [urlsplit]: a non-empty run of scheme characters that
    starts with an ASCII letter and ends at the first colon is the scheme,
    lower-cased; otherwise the default scheme stays. *)
Definition split_scheme (url scheme : string) : string * string :=
  match partition ":" url with
  | (String c0 pre, Some rest) =>
      if is_alpha c0 && all_chars scheme_char (String c0 pre)
      then (lower (String c0 pre), rest)
      else (scheme, url)
  | _ => (scheme, url)
  end.

(** The authority test of [urlsplit], with its checks of square brackets. *)
Definition split_authority (url : string) : result (string * string) :=
  if String.prefix "//" url then
    let (netloc, rest) := splitnetloc2 url in
    if (has_char "[" netloc && negb (has_char "]" netloc))
       || (has_char "]" netloc && negb (has_char "[" netloc))
    then Raise ValueError
    else if has_char "[" netloc && has_char "]" netloc
         then do _ <- check_bracketed_netloc netloc; Ok (netloc, rest)
         else Ok (netloc, rest)
  else Ok (EmptyString, url).

(** [if c in url: url, rest = url.split(c, 1)], [rest] empty otherwise. *)
Definition split_once (c : ascii) (url : string) : string * string :=
  match partition c url with
  | (u, Some rest) => (u, rest)
  | (_, None) => (url, EmptyString)
  end.

(** [urlsplit(url, scheme)].  The final [_checknetloc] only rejects
    code points above 255 and is the identity here. *)
Definition urlsplit (url scheme : string) : result SplitResult :=
  let url := lstrip_by c0_control_or_space url in
  let scheme := strip_by c0_control_or_space scheme in
  let url := remove_unsafe url in
  let scheme := remove_unsafe scheme in
  let (scheme, url) := split_scheme url scheme in
  do nu <- split_authority url;
  let (netloc, url) := (nu : string * string) in
  let (url, fragment) := split_once "#" url in
  let (url, query) := split_once "?" url in
  Ok (mkSplit scheme netloc url query fragment).

Definition splitparams (url : string) : string * string :=
  if has_char "/" url then
    match rbreak "/" url with
    | Some (head, tail) =>
        match partition ";" tail with
        | (t, Some ps) => ((head ++ t)%string, ps)
        | (_, None) => (url, EmptyString)
        end
    | None => (url, EmptyString)
    end
  else
    match partition ";" url with
    | (u, Some ps) => (u, ps)
    | (_, None) => (drop_last url, url)
    end.

Definition urlparse (url scheme : string) : result ParseResult :=
  do r <- urlsplit url scheme;
  let (url, params) :=
    if mem (s_scheme r) uses_params && has_char ";" (s_path r)
    then splitparams (s_path r)
    else (s_path r, EmptyString) in
  Ok (mkParse (s_scheme r) (s_netloc r) url params (s_query r)
              (s_fragment r)).

Definition urlunsplit (r : SplitResult) : string :=
  let url := s_path r in
  let url :=
    if truthy (s_netloc r)
       || (truthy (s_scheme r) && mem (s_scheme r) uses_netloc
           && negb (String.prefix "//" url))
    then
      let url :=
        if truthy url && negb (String.prefix "/" url)
        then ("/" ++ url)%string else url in
      ("//" ++ s_netloc r ++ url)%string
    else url in
  let url :=
    if truthy (s_scheme r) then (s_scheme r ++ ":" ++ url)%string else url in
  let url :=
    if truthy (s_query r) then (url ++ "?" ++ s_query r)%string else url in
  if truthy (s_fragment r) then (url ++ "#" ++ s_fragment r)%string else url.

Definition urlunparse (p : ParseResult) : string :=
  let url :=
    if truthy (params p) then (path p ++ ";" ++ params p)%string
    else path p in
  urlunsplit (mkSplit (scheme p) (netloc p) url (query p) (fragment p)).

(** [l[:-1]] *)
Definition but_last (l : list string) : list string := removelast l.

(** [segments[1:-1] = filter(None, segments[1:-1])] *)
Fixpoint filter_inner (l : list string) : list string :=
  match l with
  | [] => []
  | [y] => [y]
  | y :: r => if truthy y then y :: filter_inner r else filter_inner r
  end.

Definition filter_middle (l : list string) : list string :=
  match l with
  | [] => []
  | x :: r => x :: filter_inner r
  end.

(** The loop that resolves dot segments; [stack] is [resolved_path] with
    its last element first. *)
Fixpoint resolve (segments stack : list string) : list string :=
  match segments with
  | [] => rev stack
  | seg :: more =>
      if seg =? ".." then resolve more (tl stack)
      else if seg =? "." then resolve more stack
      else resolve more (seg :: stack)
  end.

Definition urljoin (base url : string) : result string :=
  if negb (truthy base) then Ok url
  else if negb (truthy url) then Ok base
  else
    do b <- urlparse base "";
    do u <- urlparse url (scheme b);
    if negb (scheme u =? scheme b) || negb (mem (scheme u) uses_relative)
    then Ok url
    else if mem (scheme u) uses_netloc && truthy (netloc u)
    then Ok (urlunparse u)
    else
      let netloc' :=
        if mem (scheme u) uses_netloc then netloc b else netloc u in
      if negb (truthy (path u)) && negb (truthy (params u))
      then
        Ok (urlunparse
              (mkParse (scheme u) netloc' (path b) (params b)
                       (if truthy (query u) then query u else query b)
                       (fragment u)))
      else
        let base_parts := split "/" (path b) in
        let base_parts :=
          if truthy (last base_parts EmptyString)
          then but_last base_parts else base_parts in
        let segments :=
          if String.prefix "/" (path u) then split "/" (path u)
          else filter_middle (base_parts ++ split "/" (path u)) in
        let resolved_path := resolve segments [] in
        let resolved_path :=
          if mem (last segments EmptyString) ["."; ".."]
          then resolved_path ++ [EmptyString] else resolved_path in
        let joined := String.concat "/" resolved_path in
        Ok (urlunparse
              (mkParse (scheme u) netloc'
                       (if truthy joined then joined else "/")
                       (params u) (query u) (fragment u))).

End BracketedHosts.

End Urllib.

(** ** The collaborators *)

(** An anchor element as the parser exposes it: [tag_href] is
    [anchor.get("href")], [tag_string] is the [.string] of the tag, the text
    that [find(..., string=...)] hands to its predicate. *)
Record anchor : Type := mkAnchor {
  tag_href : option string;
  tag_string : option string
}.

Record response : Type := mkResponse {
  status_code : Z;
  text : string
}.

Class World : Type := {
  (** the anchors of [BeautifulSoup(html, "html.parser")], in document order *)
  BeautifulSoup : string -> list anchor;
  (** [requests.get(url, headers, timeout)]; [None] when it raises *)
  requests_get : string -> option response;
  (** [urllib.parse._check_bracketed_host] returns without raising *)
  bracketed_host_ok : string -> bool;
  (** [open(path, "w")] succeeds *)
  can_open : string -> bool
}.

(** ** The result dictionary: keys in insertion order *)

Definition dict : Type := list (string * option string).

Definition keys (d : dict) : list string := map fst d.

(** [k in d] *)
Definition dict_in (k : string) (d : dict) : bool :=
  existsb (fun kv => fst kv =? k)%string d.

(** [d[k]], [None] when the key is absent *)
Fixpoint dict_get (k : string) (d : dict) : option (option string) :=
  match d with
  | [] => None
  | (k', v) :: d' => if (k' =? k)%string then Some v else dict_get k d'
  end.

(** [d[k] = v] *)
Fixpoint dict_set (k : string) (v : option string) (d : dict) : dict :=
  match d with
  | [] => [(k, v)]
  | (k', v') :: d' =>
      if (k' =? k)%string then (k', v) :: d' else (k', v') :: dict_set k v d'
  end.

(** ** Observable events *)

Inductive call_site : Type := Listing | Detail.

Inductive event : Type :=
| EGet (site : call_site) (url : string)   (* an HTTP GET leaves fetch_html *)
| ESleep (seconds : Q)                     (* time.sleep returned *)
| EStderr (msg : string)
| EStdout (results : dict)                 (* the JSON text of the map *)
| EFile (path : string) (results : dict).

Record state : Type := mkState {
  results : dict;
  trace : list event
}.

Definition log (e : event) (st : state) : state :=
  mkState (results st) (trace st ++ [e]).

Definition store (k : string) (v : option string) (st : state) : state :=
  mkState (dict_set k v (results st)) (trace st).

(** How one iteration of a loop ends. *)
Inductive flow : Type :=
| Next (st : state)               (* falls through or [continue] *)
| Return (st : state)             (* [return results] *)
| Throw (e : exn) (st : state).   (* an exception leaves the loop *)

Definition flow_state (f : flow) : state :=
  match f with
  | Next st | Return st | Throw _ st => st
  end.

Inductive outcome : Type :=
| Returns (results : dict)
| Raises (e : exn).

(** ** The program *)

Definition LISTING_TEMPLATE (page : Z) : string :=
  ("https://www.awwwards.com/websites/?page=" ++ PyStr.of_int page)%string.

Definition BASE_URL : string := "https://www.awwwards.com".

Definition MARKER : string := "/sites/".

Section Program.

Context {W : World}.

Definition urljoin : string -> string -> result string :=
  Urllib.urljoin bracketed_host_ok.

Definition fetch_html (url : string) : result string :=
  match requests_get url with
  | None => Raise RequestException
  | Some response =>
      (* response.raise_for_status() *)
      if (400 <=? status_code response)%Z && (status_code response <? 600)%Z
      then Raise RequestException
      else Ok (text response)
  end.

(** [soup.select('a[href*="/sites/"]')] *)
Definition select_sites (soup : list anchor) : list anchor :=
  filter (fun a => match tag_href a with
                   | Some h => PyStr.contains MARKER h
                   | None => false
                   end) soup.

(** The first loop of [extract_site_links]. *)
Fixpoint collect_links (anchors : list anchor) (links : list string)
  : result (list string) :=
  match anchors with
  | [] => Ok links
  | a :: more =>
      match tag_href a with
      | None => collect_links more links
      | Some href =>
          if negb (PyStr.truthy href) || negb (PyStr.contains MARKER href)
          then collect_links more links
          else
            do absolute <- urljoin BASE_URL (hd EmptyString (PyStr.split "?" href));
            collect_links more (links ++ [absolute])
      end
  end.

(** The second loop: [seen] is the set, [unique_links] the output. *)
Fixpoint dedupe (links seen unique_links : list string) : list string :=
  match links with
  | [] => unique_links
  | link :: more =>
      if Urllib.mem link seen then dedupe more seen unique_links
      else dedupe more (link :: seen) (unique_links ++ [link])
  end.

Definition extract_site_links (listing_html : string) : result (list string) :=
  let soup := BeautifulSoup listing_html in
  do links <- collect_links (select_sites soup) [];
  Ok (dedupe links [] []).

(** [lambda text: text and text.strip().lower() == "visit site"] *)
Definition is_visit_label (t : option string) : bool :=
  match t with
  | None => false
  | Some s =>
      PyStr.truthy s && (PyStr.lower (PyStr.strip s) =? "visit site")%string
  end.

(** [soup.find("a", string=pred)] *)
Fixpoint find_anchor (pred : option string -> bool) (soup : list anchor)
  : option anchor :=
  match soup with
  | [] => None
  | a :: more => if pred (tag_string a) then Some a else find_anchor pred more
  end.

Definition extract_visit_site (detail_html : string) : option string :=
  let soup := BeautifulSoup detail_html in
  match find_anchor is_visit_label soup with
  | Some button => tag_href button
  | None => None
  end.

(** [time.sleep(seconds)] *)
Definition sleep (seconds : Q) (st : state) : flow :=
  if Qle_bool 0 seconds then Next (log (ESleep seconds) st)
  else Throw ValueError st.

(** [max_sites and len(results) >= max_sites] *)
Definition cap_reached (max_sites : option Z) (d : dict) : bool :=
  match max_sites with
  | None => false
  | Some m => negb (m =? 0)%Z && (m <=? Z.of_nat (length d))%Z
  end.

Section Crawl.

Variable delay : Q.
Variable max_sites : option Z.

(** What follows the [try] statement in the body of the inner loop. *)
Definition after_store (st : state) : flow :=
  match (if negb (Qeq_bool delay 0) then sleep delay st else Next st) with
  | Next st =>
      if cap_reached max_sites (results st) then Return st else Next st
  | stop => stop
  end.

(** The body of [for site_url in extract_site_links(listing_html)]. *)
Definition visit (site_url : string) (st : state) : flow :=
  if dict_in site_url (results st) then Next st
  else
    let st := log (EGet Detail site_url) st in
    match fetch_html site_url with
    | Ok detail_html =>
        after_store (store site_url (extract_visit_site detail_html) st)
    | Raise RequestException => after_store (store site_url None st)
    | Raise e => Throw e st
    end.

Fixpoint for_sites (links : list string) (st : state) : flow :=
  match links with
  | [] => Next st
  | site_url :: more =>
      match visit site_url st with
      | Next st => for_sites more st
      | stop => stop
      end
  end.

(** The body of [for page in pages]. *)
Definition visit_page (page : Z) (st : state) : flow :=
  let listing_url := LISTING_TEMPLATE page in
  let st := log (EGet Listing listing_url) st in
  match fetch_html listing_url with
  | Raise e => Throw e st
  | Ok listing_html =>
      match extract_site_links listing_html with
      | Raise e => Throw e st
      | Ok links => for_sites links st
      end
  end.

Fixpoint for_pages (pages : list Z) (st : state) : flow :=
  match pages with
  | [] => Next st
  | page :: more =>
      match visit_page page st with
      | Next st => for_pages more st
      | stop => stop
      end
  end.

End Crawl.

Definition finish (f : flow) : outcome * list event :=
  match f with
  | Next st | Return st => (Returns (results st), trace st)
  | Throw e st => (Raises e, trace st)
  end.

Definition scrape_awwwards (pages : list Z) (delay : Q)
  (max_sites : option Z) : outcome * list event :=
  finish (for_pages delay max_sites pages (mkState [] [])).

(** [argparse.Namespace] as [parse_args] fills it. *)
Record Namespace : Type := mkArgs {
  start_page : Z;
  end_page : option Z;
  arg_delay : Q;
  arg_max_sites : option Z;
  output : option string
}.

(** [range(lo, hi)] *)
Definition range (lo hi : Z) : list Z :=
  map (fun i => (lo + Z.of_nat i)%Z) (seq 0 (Z.to_nat (hi - lo))).

Definition main (args : Namespace) : result Z * list event :=
  let end_page :=
    match end_page args with
    | Some e => e
    | None => start_page args
    end in
  if (start_page args <? 1)%Z || (end_page <? start_page args)%Z
  then (Ok 1%Z, [EStderr "Invalid page range provided."])
  else
    let pages := range (start_page args) (end_page + 1) in
    match scrape_awwwards pages (arg_delay args) (arg_max_sites args) with
    | (Raises e, tr) => (Raise e, tr)
    | (Returns results, tr) =>
        match output args with
        | Some path =>
            if PyStr.truthy path
            then if can_open path then (Ok 0%Z, tr ++ [EFile path results])
                 else (Raise OSError, tr)
            else (Ok 0%Z, tr ++ [EStdout results])
        | None => (Ok 0%Z, tr ++ [EStdout results])
        end
    end.


End Program.

(** ** Traces, delays and states: the words of the statements *)

(** The detail URLs fetched, in order. *)
Fixpoint detail_gets (tr : list event) : list string :=
  match tr with
  | [] => []
  | EGet Detail u :: more => u :: detail_gets more
  | _ :: more => detail_gets more
  end.

(** The listing URLs fetched, in order. *)
Fixpoint listing_gets (tr : list event) : list string :=
  match tr with
  | [] => []
  | EGet Listing u :: more => u :: listing_gets more
  | _ :: more => listing_gets more
  end.



Definition is_output (e : event) : bool :=
  match e with
  | EStdout _ | EFile _ _ => true
  | _ => false
  end.

(** [s] has no question mark: as a URL, no query string. *)
Definition no_query (s : string) : Prop := PyStr.has_char "?" s = false.

(** [delay] is truthy and [time.sleep(delay)] accepts it. *)
Definition positive (delay : Q) : bool :=
  negb (Qeq_bool delay 0) && Qle_bool 0 delay.

(** [delay] is truthy and [time.sleep(delay)] rejects it. *)
Definition negative (delay : Q) : bool :=
  negb (Qeq_bool delay 0) && negb (Qle_bool 0 delay).

(** The events between a store and the cap test. *)
Definition pause (delay : Q) : list event :=
  if positive delay then [ESleep delay] else [].

(** The pacing discipline of a trace, read from its start: [pending] says
    that a sleep is due next.  A sleep of length [delay] is due after a
    detail fetch when [delay] is positive, and no sleep occurs otherwise. *)
Fixpoint paced (delay : Q) (pending : bool) (tr : list event) : Prop :=
  match tr with
  | [] => pending = false
  | ESleep d :: more => pending = true /\ d = delay /\ paced delay false more
  | EGet Detail _ :: more =>
      pending = false /\ paced delay (positive delay) more
  | _ :: more => pending = false /\ paced delay false more
  end.

(** [b] continues [a]: it has the entries and the events of [a], followed
    by more. *)
Definition extends (a b : state) : Prop :=
  (exists d, results b = results a ++ d)
  /\ (exists t, trace b = trace a ++ t).

(** Keep every element the first time it occurs, drop it afterwards. *)
Fixpoint first_occurrences (l : list string) : list string :=
  match l with
  | [] => []
  | x :: more =>
      x :: filter (fun y => negb (y =? x)%string) (first_occurrences more)
  end.

(** ** The words that depend on the collaborators *)

Section Vocabulary.

Context {W : World}.

(** The guard of the first loop of [extract_site_links]. *)
Definition eligible (a : anchor) : bool :=
  match tag_href a with
  | Some href => PyStr.truthy href && PyStr.contains MARKER href
  | None => false
  end.

(** The URL the first loop appends for [href]. *)
Definition absolute_of (href : string) : result string :=
  urljoin BASE_URL (hd EmptyString (PyStr.split "?" href)).

(** [a] is an anchor with an href that resolves to [u]. *)
Definition resolves_to (a : anchor) (u : string) : Prop :=
  exists href, tag_href a = Some href /\ absolute_of href = Ok u.

(** The links of the listing page at [url]; empty when it has none. *)
Definition links_at (url : string) : list string :=
  match fetch_html url with
  | Ok html =>
      match extract_site_links html with
      | Ok links => links
      | Raise _ => []
      end
  | Raise _ => []
  end.

(** What the crawl stores for a detail URL. *)
Definition detail_value (url : string) : option string :=
  match fetch_html url with
  | Ok html => extract_visit_site html
  | Raise _ => None
  end.

(** What holds of the state at every point of a crawl: the keys are
    distinct, they are the detail URLs fetched so far, in order, every
    value is what its detail page gives, and the trace is paced. *)
Definition consistent (delay : Q) (st : state) : Prop :=
  NoDup (keys (results st))
  /\ detail_gets (trace st) = keys (results st)
  /\ (forall k v, In (k, v) (results st) -> v = detail_value k)
  /\ paced delay false (trace st).

(** Every link of every listing page fetched so far is a key. *)
Definition all_pages_done (st : state) : Prop :=
  forall l u,
    In l (listing_gets (trace st)) -> In u (links_at l) ->
    In u (keys (results st)).

(** The same, the last listing page fetched apart. *)
Definition earlier_pages_done (st : state) : Prop :=
  forall l u,
    In l (removelast (listing_gets (trace st))) -> In u (links_at l) ->
    In u (keys (results st)).

(** The detail URLs the listing pages of [pages] link to, each at its
    first discovery. *)
Definition discovered (pages : list Z) : list string :=
  first_occurrences
    (flat_map (fun page => links_at (LISTING_TEMPLATE page)) pages).

End Vocabulary.




(** ** A small web, for examples *)

Module Demo.

Definition a (href label : string) : anchor :=
  mkAnchor (Some href) (Some label).

Definition pages : list (string * list anchor) :=
  [ ("listing-1",
     [ a "/sites/alpha?ref=home" "Alpha";
       mkAnchor None (Some "no href");
       a "/sites/beta" "Beta";
       a "/sites/alpha" "Alpha again";
       a "/about" "About" ]);
    ("listing-2",
     [ a "/sites/beta" "Beta";
       a "https://www.awwwards.com/sites/gamma?x=1" "Gamma";
       a "./sites/delta" "Delta";
       a "/sites/epsilon" "Epsilon" ]);
    ("listing-q", [ a "/about?next=/sites/42" "About" ]);
    ("listing-42", [ a "/sites/42?ref=home" "Forty-two" ]);
    ("detail-alpha",
     [ a "/" "Home"; a "https://alpha.example/" "  Visit Site  ";
       a "https://other.example/" "visit site" ]);
    ("detail-gamma", [ a "/" "Home"; mkAnchor None (Some "VISIT SITE") ]);
    ("detail-delta", [ a "/" "Home" ]);
    ("detail-epsilon", [ a "https://epsilon.example/" "VISIT SITE" ]) ].

Definition web : list (string * response) :=
  [ ("https://www.awwwards.com/websites/?page=1", mkResponse 200 "listing-1");
    ("https://www.awwwards.com/websites/?page=2", mkResponse 200 "listing-2");
    ("https://www.awwwards.com/websites/?page=3", mkResponse 503 "busy");
    ("https://www.awwwards.com/sites/alpha", mkResponse 200 "detail-alpha");
    ("https://www.awwwards.com/sites/beta", mkResponse 404 "gone");
    ("https://www.awwwards.com/sites/gamma", mkResponse 200 "detail-gamma");
    ("https://www.awwwards.com/sites/delta", mkResponse 200 "detail-delta");
    ("https://www.awwwards.com/sites/epsilon",
     mkResponse 200 "detail-epsilon") ].

Fixpoint assoc {A : Type} (k : string) (l : list (string * A)) : option A :=
  match l with
  | [] => None
  | (k', v) :: more => if (k' =? k)%string then Some v else assoc k more
  end.

#[export] Instance world : World := {
  BeautifulSoup html :=
    match assoc html pages with
    | Some anchors => anchors
    | None => []
    end;
  requests_get url := assoc url web;
  bracketed_host_ok _ := false;
  can_open _ := true
}.

Definition empty_state : state := mkState [] [].

(** The state of a crawl of pages 1 and 2 once page 1 is done. *)
Definition after_page_1 : state :=
  flow_state (for_pages 0 None [1%Z] empty_state).

(** The crawl of pages 1 and 2, without delay or cap. *)
Definition full_run : outcome * list event :=
  scrape_awwwards [1%Z; 2%Z] 0 None.


End Demo.

(** ** More words: whole maps, traces without sleeps, a faulty web *)

Definition is_sleep (e : event) : bool :=
  match e with
  | ESleep _ => true
  | _ => false
  end.

(** The trace with its sleeps left out. *)
Definition without_sleeps (tr : list event) : list event :=
  filter (fun e => negb (is_sleep e)) tr.

(** The events a crawl can cause: requests and sleeps. *)
Definition crawl_event (e : event) : bool :=
  match e with
  | EGet _ _ | ESleep _ => true
  | _ => false
  end.

(** Two states with the same map and, the sleeps apart, the same trace. *)
Definition same_but_sleeps (a b : state) : Prop :=
  results a = results b /\ without_sleeps (trace a) = trace b.

(** Two flows that end the same way in states alike but for the sleeps. *)
Definition alike_but_sleeps (f f0 : flow) : Prop :=
  match f, f0 with
  | Next a, Next b => same_but_sleeps a b
  | Return a, Return b => same_but_sleeps a b
  | Throw e a, Throw e0 b => e = e0 /\ same_but_sleeps a b
  | _, _ => False
  end.

Section Entries.

Context {W : World}.

(** The map that holds, for each URL of [urls] in order, what its detail
    page gives. *)
Definition entries_of (urls : list string) : dict :=
  map (fun u => (u, detail_value u)) urls.

(** The hrefs of the anchors that pass the guard of [extract_site_links],
    in document order. *)
Definition selected_hrefs (soup : list anchor) : list string :=
  flat_map (fun a => match tag_href a with
                     | Some href => [href]
                     | None => []
                     end)
           (filter eligible soup).

(** The listing requests for [pages], in order. *)
Definition listing_requests (pages : list Z) : list event :=
  map (fun page => EGet Listing (LISTING_TEMPLATE page)) pages.

End Entries.

(** A web whose first listing page carries an href that [urljoin] rejects
    (its authority opens a square bracket and never closes it), and a
    document given whole and in two halves. *)
Module Faulty.

Definition pages : list (string * list anchor) :=
  [ ("listing-1",
     [ Demo.a "/sites/ok" "Fine";
       Demo.a "//[broken/sites/x?ref=1" "Broken";
       Demo.a "/sites/later" "Later" ]);
    ("listing-2", [ Demo.a "/sites/ok" "Fine" ]);
    ("detail-ok", [ Demo.a "https://ok.example/" "Visit Site" ]);
    ("first-half", [ Demo.a "/sites/a" "A"; Demo.a "/sites/b" "B" ]);
    ("second-half", [ Demo.a "/sites/b?again" "B"; Demo.a "/sites/c" "C" ]);
    ("both-halves",
     [ Demo.a "/sites/a" "A"; Demo.a "/sites/b" "B";
       Demo.a "/sites/b?again" "B"; Demo.a "/sites/c" "C" ]) ].

Definition web : list (string * response) :=
  [ ("https://www.awwwards.com/websites/?page=1", mkResponse 200 "listing-1");
    ("https://www.awwwards.com/websites/?page=2", mkResponse 200 "listing-2");
    ("https://www.awwwards.com/sites/ok", mkResponse 200 "detail-ok") ].

#[export] Instance world : World := {
  BeautifulSoup html :=
    match Demo.assoc html pages with
    | Some anchors => anchors
    | None => []
    end;
  requests_get url := Demo.assoc url web;
  bracketed_host_ok _ := false;
  can_open _ := false
}.

End Faulty.

(** * Properties *)

(** ** Strings *)

Module PyStrFacts.
Import PyStr.

Lemma truthy_true (s : string) : truthy s = true <-> s <> EmptyString.
Proof.
  unfold truthy. destruct (String.eqb_spec s ""); simpl; split; congruence.
Qed.


Lemma split_head (c : ascii) (s : string) :
  hd EmptyString (split c s) = fst (partition c s).
Proof.
  induction s as [|a s IH]; simpl; [reflexivity|].
  destruct (Ascii.eqb a c); simpl; [reflexivity|].
  destruct (split c s) as [|h t]; destruct (partition c s) as [p o];
    simpl in *; congruence.
Qed.





Lemma rstrip_by_split (p : ascii -> bool) (s : string) :
  exists r, s = (rstrip_by p s ++ r)%string /\ all_chars p r = true.
Proof.
  induction s as [|a s [r [E Hr]]]; simpl.
  - exists EmptyString. split; reflexivity.
  - destruct (rstrip_by p s) as [|b u] eqn:R.
    + destruct (p a) eqn:Pa.
      * exists (String a s). simpl in E. subst r. simpl.
        rewrite Pa, Hr. split; reflexivity.
      * exists s. simpl in E. subst r. split; [reflexivity | exact Hr].
    + exists r. split; [simpl in *; congruence | exact Hr].
Qed.






End PyStrFacts.

(** ** Removing duplicates *)

Section FirstOccurrences.

Lemma mem_In (x : string) (l : list string) :
  Urllib.mem x l = true <-> In x l.
Proof.
  unfold Urllib.mem. rewrite existsb_exists. split.
  - intros [y [Hy E]]. apply String.eqb_eq in E. subst. exact Hy.
  - intros H. exists x. split; [exact H | apply String.eqb_refl].
Qed.

Lemma mem_not_In (x : string) (l : list string) :
  Urllib.mem x l = false <-> ~ In x l.
Proof.
  rewrite <- mem_In. destruct (Urllib.mem x l); split; congruence.
Qed.

Lemma first_occurrences_In (l : list string) (x : string) :
  In x (first_occurrences l) <-> In x l.
Proof.
  induction l as [|y l IH]; simpl; [tauto|].
  rewrite filter_In, IH. split.
  - intros [H | [H _]]; auto.
  - intros [H | H]; [auto|].
    destruct (String.eqb_spec x y); [subst; auto | right; auto].
Qed.

Lemma first_occurrences_NoDup (l : list string) :
  NoDup (first_occurrences l).
Proof.
  induction l as [|y l IH]; simpl; constructor.
  - rewrite filter_In, String.eqb_refl. intros [_ H]. discriminate H.
  - apply NoDup_filter, IH.
Qed.

Lemma filter_twice {A : Type} (p q : A -> bool) (l : list A) :
  filter p (filter q l) = filter (fun x => q x && p x) l.
Proof.
  induction l as [|y l IH]; simpl; [reflexivity|].
  destruct (q y); simpl; [destruct (p y)|]; rewrite IH; reflexivity.
Qed.

(** Scanning from the left, an element is appended unless it was met. *)
Lemma first_occurrences_snoc (l : list string) (x : string) :
  first_occurrences (l ++ [x])
  = first_occurrences l ++ (if Urllib.mem x l then [] else [x]).
Proof.
  induction l as [|y l IH]; [reflexivity|].
  change (Urllib.mem x (y :: l)) with ((x =? y)%string || Urllib.mem x l).
  simpl. rewrite IH, filter_app. f_equal. f_equal.
  destruct (String.eqb_spec x y) as [E|E]; simpl.
  - subst. destruct (Urllib.mem y l); simpl;
      [reflexivity | rewrite String.eqb_refl; reflexivity].
  - destruct (Urllib.mem x l); simpl; [reflexivity|].
    apply String.eqb_neq in E. rewrite E. reflexivity.
Qed.

Context {W : World}.

Lemma dedupe_spec (links seen out : list string) :
  dedupe links seen out
  = out ++ filter (fun y => negb (Urllib.mem y seen)) (first_occurrences links).
Proof.
  revert seen out.
  induction links as [|x links IH]; intros seen out; simpl.
  - symmetry. apply app_nil_r.
  - destruct (Urllib.mem x seen) eqn:M; simpl.
    + rewrite IH, filter_twice. f_equal. apply filter_ext. intros y.
      destruct (String.eqb_spec y x); [subst; rewrite M|]; reflexivity.
    + rewrite IH, <- app_assoc, filter_twice. simpl. do 2 f_equal.
      apply filter_ext. intros y. unfold Urllib.mem. simpl.
      rewrite negb_orb. reflexivity.
Qed.

Lemma dedupe_first_occurrences (links : list string) :
  dedupe links [] [] = first_occurrences links.
Proof.
  rewrite dedupe_spec. simpl.
  induction (first_occurrences links) as [|y l IH]; simpl; congruence.
Qed.

End FirstOccurrences.

(** ** The two extractors *)

Section Extractors.

Context {W : World}.

Lemma partition_spec (c : ascii) (s pre : string) (o : option string) :
  PyStr.partition c s = (pre, o) ->
  PyStr.has_char c pre = false
  /\ match o with
     | Some post => s = (pre ++ String c post)%string
     | None => s = pre
     end.
Proof.
  revert pre o. induction s as [|a s IH]; simpl; intros pre o H.
  - injection H as <- <-. split; reflexivity.
  - destruct (Ascii.eqb_spec a c) as [E|E].
    + injection H as <- <-. subst. split; reflexivity.
    + destruct (PyStr.partition c s) as [h t].
      injection H as <- <-. destruct (IH h t eq_refl) as [Hh Ht].
      simpl. apply Ascii.eqb_neq in E. rewrite E, Hh. split; [reflexivity|].
      destruct t; congruence.
Qed.

(** [href.split("?")[0]] is [href] cut at its first question mark. *)
Lemma truncated_at_first_question_mark (href : string) :
  let pre := hd EmptyString (PyStr.split "?" href) in
  PyStr.has_char "?" pre = false
  /\ (href = pre \/ exists post, href = (pre ++ String "?" post)%string).
Proof.
  simpl. rewrite PyStrFacts.split_head.
  destruct (PyStr.partition "?" href) as [pre o] eqn:P.
  destruct (partition_spec _ _ _ _ P) as [H1 H2]. simpl.
  split; [exact H1|]. destruct o as [post|]; [right; exists post|left]; exact H2.
Qed.

Lemma collect_links_acc (anchors : list anchor) :
  forall acc,
    collect_links anchors acc
    = do r <- collect_links anchors []; Ok (acc ++ r).
Proof.
  induction anchors as [|a more IH]; intros acc; simpl.
  - rewrite app_nil_r. reflexivity.
  - destruct (tag_href a) as [href|]; [|apply IH].
    destruct (negb (PyStr.truthy href) || negb (PyStr.contains MARKER href));
      [apply IH|].
    destruct (urljoin BASE_URL (hd EmptyString (PyStr.split "?" href)))
      as [absolute|e]; simpl; [|reflexivity].
    rewrite (IH (acc ++ [absolute])), (IH [absolute]).
    destruct (collect_links more []); simpl; [|reflexivity].
    rewrite <- app_assoc. reflexivity.
Qed.

Lemma eligible_guard (a : anchor) (href : string) :
  tag_href a = Some href ->
  negb (PyStr.truthy href) || negb (PyStr.contains MARKER href)
  = negb (eligible a).
Proof.
  intros H. unfold eligible. rewrite H, negb_andb. reflexivity.
Qed.

Lemma collect_links_cons (a : anchor) (more : list anchor) (acc : list string) :
  collect_links (a :: more) acc
  = if eligible a
    then match tag_href a with
         | Some href =>
             do absolute <- absolute_of href;
             collect_links more (acc ++ [absolute])
         | None => collect_links more acc
         end
    else collect_links more acc.
Proof.
  simpl. destruct (tag_href a) as [href|] eqn:H.
  - rewrite (eligible_guard _ _ H). destruct (eligible a); reflexivity.
  - destruct (eligible a); reflexivity.
Qed.

(** Only the anchors that pass the guard matter. *)
Lemma collect_links_filter (anchors : list anchor) :
  forall acc,
    collect_links anchors acc = collect_links (filter eligible anchors) acc.
Proof.
  induction anchors as [|a more IH]; intros acc; [reflexivity|].
  rewrite collect_links_cons. simpl filter.
  destruct (eligible a) eqn:E; [|apply IH].
  rewrite collect_links_cons, E.
  destruct (tag_href a) as [href|]; [|apply IH].
  destruct (absolute_of href); simpl; [apply IH | reflexivity].
Qed.

Lemma select_sites_eligible (soup : list anchor) :
  filter eligible (select_sites soup) = filter eligible soup.
Proof.
  unfold select_sites. rewrite filter_twice. apply filter_ext.
  intros a. unfold eligible. destruct (tag_href a) as [href|]; [|reflexivity].
  destruct (PyStr.contains MARKER href); simpl;
    [reflexivity | symmetry; apply andb_false_r].
Qed.

Lemma collect_links_resolves (anchors : list anchor) :
  forall links,
    collect_links anchors [] = Ok links ->
    Forall2 resolves_to (filter eligible anchors) links.
Proof.
  induction anchors as [|a more IH]; intros links H.
  - injection H as <-. constructor.
  - rewrite collect_links_cons in H. simpl filter.
    destruct (eligible a) eqn:E; [|apply IH, H].
    unfold eligible in E.
    destruct (tag_href a) as [href|] eqn:Hh; [|discriminate E].
    destruct (absolute_of href) as [absolute|e] eqn:A; [|discriminate H].
    simpl in H. rewrite collect_links_acc in H.
    destruct (collect_links more []) as [r|e]; [|discriminate H].
    injection H as <-. simpl. constructor; [|apply IH; reflexivity].
    exists href. split; [exact Hh | exact A].
Qed.

Lemma extract_site_links_unfold (listing_html : string) :
  extract_site_links listing_html
  = do raw <- collect_links (filter eligible (BeautifulSoup listing_html)) [];
    Ok (first_occurrences raw).
Proof.
  unfold extract_site_links.
  rewrite collect_links_filter, select_sites_eligible.
  destruct (collect_links _ []); simpl; [|reflexivity].
  rewrite dedupe_first_occurrences. reflexivity.
Qed.

(** The output is the list of resolved hrefs of the anchors that pass the
    guard, in document order, each kept the first time it occurs. *)
Lemma extract_site_links_raw (listing_html : string) (links : list string) :
  extract_site_links listing_html = Ok links ->
  exists raw,
    Forall2 resolves_to (filter eligible (BeautifulSoup listing_html)) raw
    /\ links = first_occurrences raw.
Proof.
  rewrite extract_site_links_unfold. intros H.
  destruct (collect_links _ []) as [raw|e] eqn:C; [|discriminate H].
  injection H as <-. exists raw. split; [|reflexivity].
  apply collect_links_resolves in C. rewrite filter_twice in C.
  rewrite (filter_ext _ eligible) in C by (intros a; apply andb_diag).
  exact C.
Qed.

Lemma Forall2_In_right {A B : Type} (R : A -> B -> Prop)
  (l : list A) (m : list B) (y : B) :
  Forall2 R l m -> In y m -> exists x, In x l /\ R x y.
Proof.
  induction 1 as [|x y' l m Hxy _ IH]; simpl; [tauto|].
  intros [<- | H].
  - exists x. auto.
  - destruct (IH H) as [x' [Hx Hr]]. exists x'. auto.
Qed.

Lemma Forall2_In_left {A B : Type} (R : A -> B -> Prop)
  (l : list A) (m : list B) (x : A) :
  Forall2 R l m -> In x l -> exists y, In y m /\ R x y.
Proof.
  induction 1 as [|x' y l m Hxy _ IH]; simpl; [tauto|].
  intros [<- | H].
  - exists y. auto.
  - destruct (IH H) as [y' [Hy Hr]]. exists y'. auto.
Qed.

Lemma eligible_href (a : anchor) :
  eligible a = true ->
  exists href,
    tag_href a = Some href /\ href <> EmptyString
    /\ PyStr.contains MARKER href = true.
Proof.
  unfold eligible. destruct (tag_href a) as [href|]; [|discriminate].
  intros H. apply andb_prop in H. destruct H as [H1 H2].
  exists href. rewrite <- PyStrFacts.truthy_true. auto.
Qed.

(** Where a returned URL comes from. *)
Lemma extract_site_links_origin (listing_html : string)
  (links : list string) (u : string) :
  extract_site_links listing_html = Ok links -> In u links ->
  exists a href,
    In a (BeautifulSoup listing_html) /\ eligible a = true
    /\ tag_href a = Some href /\ absolute_of href = Ok u.
Proof.
  intros H Hu. destruct (extract_site_links_raw _ _ H) as [raw [F ->]].
  apply (proj1 (first_occurrences_In _ _)) in Hu.
  destruct (Forall2_In_right _ _ _ _ F Hu) as [a [Ha [href [Hh Hr]]]].
  apply filter_In in Ha. destruct Ha as [Ha E].
  exists a, href. auto.
Qed.

End Extractors.

(** ** Query strings *)

Section NoQuery.

Context {W : World}.

Lemma has_char_app (c : ascii) (a b : string) :
  PyStr.has_char c (a ++ b) = PyStr.has_char c a || PyStr.has_char c b.
Proof.
  induction a as [|x a IH]; simpl; [reflexivity|].
  rewrite IH, orb_assoc. reflexivity.
Qed.

Lemma no_query_app (a b : string) :
  no_query a -> no_query b -> no_query (a ++ b).
Proof.
  unfold no_query. intros Ha Hb. rewrite has_char_app, Ha, Hb. reflexivity.
Qed.

Lemma no_query_app_inv (a b : string) :
  no_query (a ++ b) -> no_query a /\ no_query b.
Proof.
  unfold no_query. rewrite has_char_app. apply orb_false_elim.
Qed.

Lemma no_query_cons (c : ascii) (s : string) :
  no_query (String c s) <-> Ascii.eqb c "?" = false /\ no_query s.
Proof. unfold no_query. simpl. apply orb_false_iff. Qed.

Lemma no_query_tail (c : ascii) (s : string) :
  no_query (String c s) -> no_query s.
Proof. intros H. apply no_query_cons in H. tauto. Qed.

Lemma no_query_lstrip (p : ascii -> bool) (s : string) :
  no_query s -> no_query (PyStr.lstrip_by p s).
Proof.
  induction s as [|c s IH]; simpl; intros H; [exact H|].
  destruct (p c); [apply IH, (no_query_tail _ _ H) | exact H].
Qed.

Lemma no_query_rstrip (p : ascii -> bool) (s : string) :
  no_query s -> no_query (PyStr.rstrip_by p s).
Proof.
  intros H. destruct (PyStrFacts.rstrip_by_split p s) as [r [E _]].
  rewrite E in H. exact (proj1 (no_query_app_inv _ _ H)).
Qed.

Lemma no_query_remove (c : ascii) (s : string) :
  no_query s -> no_query (PyStr.remove_char c s).
Proof.
  induction s as [|x s IH]; simpl; intros H; [exact H|].
  apply no_query_cons in H. destruct H as [Hx Hs].
  destruct (Ascii.eqb x c); [exact (IH Hs)|].
  apply no_query_cons. auto.
Qed.

Lemma no_query_remove_unsafe (s : string) :
  no_query s -> no_query (Urllib.remove_unsafe s).
Proof.
  intros H. unfold Urllib.remove_unsafe. repeat apply no_query_remove. exact H.
Qed.

Lemma no_query_partition (c : ascii) (s p : string) (o : option string) :
  PyStr.partition c s = (p, o) -> no_query s ->
  no_query p /\ match o with Some q => no_query q | None => True end.
Proof.
  intros E H. destruct (partition_spec _ _ _ _ E) as [_ S].
  destruct o as [q|]; subst s.
  - apply no_query_app_inv in H. destruct H as [Hp Hq].
    split; [exact Hp | exact (no_query_tail _ _ Hq)].
  - auto.
Qed.

Lemma partition_no_sep (c : ascii) (s : string) :
  PyStr.has_char c s = false -> PyStr.partition c s = (s, None).
Proof.
  induction s as [|a s IH]; simpl; [reflexivity|].
  destruct (Ascii.eqb a c); simpl; [discriminate|].
  intros H. rewrite (IH H). reflexivity.
Qed.

Lemma break_app (p : ascii -> bool) (s h t : string) :
  PyStr.break p s = (h, t) -> s = (h ++ t)%string.
Proof.
  revert h t. induction s as [|a s IH]; simpl; intros h t E.
  - injection E as <- <-. reflexivity.
  - destruct (p a); [injection E as <- <-; reflexivity|].
    destruct (PyStr.break p s) as [h' t']. injection E as <- <-.
    simpl. rewrite (IH h' t' eq_refl). reflexivity.
Qed.

Lemma rbreak_app (c : ascii) (s h t : string) :
  PyStr.rbreak c s = Some (h, t) -> s = (h ++ t)%string.
Proof.
  revert h t. induction s as [|a s IH]; simpl; intros h t E; [discriminate E|].
  destruct (PyStr.rbreak c s) as [[h' t']|].
  - injection E as <- <-. simpl. rewrite (IH h' t' eq_refl). reflexivity.
  - destruct (Ascii.eqb a c); [|discriminate E].
    injection E as <- <-. reflexivity.
Qed.

Lemma lower_char_not_query (c : ascii) :
  Ascii.eqb c "?" = false -> Ascii.eqb (snd (PyStr.lower_char c)) "?" = false.
Proof.
  destruct c as [[|] [|] [|] [|] [|] [|] [|] [|]];
    vm_compute; intros H; first [exact H | reflexivity].
Qed.

Lemma no_query_lower (s : string) : no_query s -> no_query (PyStr.lower s).
Proof.
  induction s as [|c s IH]; simpl; intros H; [exact H|].
  apply no_query_cons in H. destruct H as [Hc Hs].
  apply no_query_cons. split; [apply lower_char_not_query, Hc | exact (IH Hs)].
Qed.

Lemma no_query_drop_last (s : string) :
  no_query s -> no_query (PyStr.drop_last s).
Proof.
  induction s as [|c s IH]; simpl; intros H; [exact H|].
  destruct s as [|d s]; [reflexivity|].
  apply no_query_cons in H. destruct H as [Hc Hs].
  apply no_query_cons. split; [exact Hc | exact (IH Hs)].
Qed.

Lemma no_query_split (c : ascii) (s : string) :
  no_query s -> Forall no_query (PyStr.split c s).
Proof.
  induction s as [|a s IH]; simpl; intros H.
  - repeat constructor.
  - apply no_query_cons in H. destruct H as [Ha Hs]. specialize (IH Hs).
    destruct (Ascii.eqb a c).
    + constructor; [reflexivity | exact IH].
    + destruct (PyStr.split c s) as [|h t].
      * constructor; [|constructor]. apply no_query_cons. split; [exact Ha|].
        reflexivity.
      * inversion IH as [|? ? Hh Ht]; subst. constructor; [|exact Ht].
        apply no_query_cons. auto.
Qed.

Lemma no_query_concat (sep : string) (l : list string) :
  no_query sep -> Forall no_query l -> no_query (String.concat sep l).
Proof.
  intros Hs. induction 1 as [|x l Hx Hl IH]; simpl; [reflexivity|].
  destruct l as [|y l]; [exact Hx|].
  apply no_query_app; [exact Hx|]. apply no_query_app; [exact Hs | exact IH].
Qed.

Lemma Forall_removelast {A : Type} (P : A -> Prop) (l : list A) :
  Forall P l -> Forall P (removelast l).
Proof.
  induction 1 as [|x l Hx Hl IH]; simpl; [constructor|].
  destruct l; [constructor | constructor; assumption].
Qed.

Lemma Forall_filter_inner (l : list string) :
  Forall no_query l -> Forall no_query (Urllib.filter_inner l).
Proof.
  induction 1 as [|x l Hx Hl IH]; simpl; [constructor|].
  destruct l as [|y l]; [repeat constructor; exact Hx|].
  destruct (PyStr.truthy x); [constructor; assumption | exact IH].
Qed.

Lemma Forall_filter_middle (l : list string) :
  Forall no_query l -> Forall no_query (Urllib.filter_middle l).
Proof.
  intros H. destruct H as [|x l Hx Hl]; simpl; [constructor|].
  constructor; [exact Hx | apply Forall_filter_inner, Hl].
Qed.

Lemma Forall_resolve (segments : list string) :
  forall stack,
    Forall no_query segments -> Forall no_query stack ->
    Forall no_query (Urllib.resolve segments stack).
Proof.
  induction segments as [|seg more IH]; intros stack Hs Hk; simpl.
  - apply Forall_rev, Hk.
  - inversion Hs as [|? ? Hseg Hmore]; subst.
    destruct (seg =? "..")%string.
    + apply IH; [exact Hmore|]. destruct Hk; simpl; [constructor | assumption].
    + destruct (seg =? ".")%string; apply IH; auto.
Qed.

(** *** Through [urljoin] *)

Lemma split_scheme_no_query (url scheme sc u : string) :
  Urllib.split_scheme url scheme = (sc, u) ->
  no_query url -> no_query scheme -> no_query sc /\ no_query u.
Proof.
  unfold Urllib.split_scheme. intros E Hu Hs.
  destruct (PyStr.partition ":" url) as [pre o] eqn:P.
  destruct (no_query_partition _ _ _ _ P Hu) as [Hp Ho].
  destruct pre as [|c0 pre]; [injection E as <- <-; auto|].
  destruct o as [rest|]; [|injection E as <- <-; auto].
  destruct (Urllib.is_alpha c0 && PyStr.all_chars Urllib.scheme_char (String c0 pre));
    injection E as <- <-; [|auto].
  split; [exact (no_query_lower _ Hp) | exact Ho].
Qed.

Lemma splitnetloc2_no_query (url n r : string) :
  Urllib.splitnetloc2 url = (n, r) -> no_query url -> no_query n /\ no_query r.
Proof.
  unfold Urllib.splitnetloc2. intros E H.
  destruct url as [|a [|b rest]];
    try solve [injection E as <- <-; split; first [exact H | reflexivity]].
  apply no_query_tail, no_query_tail in H.
  rewrite (break_app _ _ _ _ E) in H. apply no_query_app_inv, H.
Qed.

Lemma split_authority_no_query (url n u : string) :
  Urllib.split_authority bracketed_host_ok url = Ok (n, u) ->
  no_query url -> no_query n /\ no_query u.
Proof.
  unfold Urllib.split_authority. intros E H.
  destruct (String.prefix "//" url);
    [|injection E as <- <-; split; [reflexivity | exact H]].
  destruct (Urllib.splitnetloc2 url) as [n' r'] eqn:S.
  pose proof (splitnetloc2_no_query _ _ _ S H) as G.
  destruct ((PyStr.has_char "[" n' && negb (PyStr.has_char "]" n'))
            || (PyStr.has_char "]" n' && negb (PyStr.has_char "[" n')));
    [discriminate E|].
  destruct (PyStr.has_char "[" n' && PyStr.has_char "]" n').
  - destruct (Urllib.check_bracketed_netloc bracketed_host_ok n');
      simpl in E; [|discriminate E].
    injection E as <- <-. exact G.
  - injection E as <- <-. exact G.
Qed.

Lemma split_once_no_query (c : ascii) (url u r : string) :
  Urllib.split_once c url = (u, r) -> no_query url -> no_query u /\ no_query r.
Proof.
  unfold Urllib.split_once. intros E H.
  destruct (PyStr.partition c url) as [p o] eqn:P.
  destruct (no_query_partition _ _ _ _ P H) as [Hp Ho].
  destruct o as [q|]; injection E as <- <-; auto.
  split; [exact H | reflexivity].
Qed.

Lemma split_once_query (url : string) :
  no_query url -> Urllib.split_once "?" url = (url, EmptyString).
Proof.
  intros H. unfold Urllib.split_once. rewrite (partition_no_sep _ _ H).
  reflexivity.
Qed.

(** The five components [urlsplit] finds in a text without question mark
    have none either, and the query is empty. *)
Lemma urlsplit_no_query (url scheme : string) (r : Urllib.SplitResult) :
  Urllib.urlsplit bracketed_host_ok url scheme = Ok r ->
  no_query url -> no_query scheme ->
  no_query (Urllib.s_scheme r) /\ no_query (Urllib.s_netloc r)
  /\ no_query (Urllib.s_path r) /\ Urllib.s_query r = EmptyString
  /\ no_query (Urllib.s_fragment r).
Proof.
  unfold Urllib.urlsplit. intros E Hu Hs.
  assert (Hu1 : no_query (Urllib.remove_unsafe
                            (PyStr.lstrip_by Urllib.c0_control_or_space url)))
    by (apply no_query_remove_unsafe, no_query_lstrip, Hu).
  assert (Hs1 : no_query (Urllib.remove_unsafe
                            (PyStr.strip_by Urllib.c0_control_or_space scheme)))
    by (apply no_query_remove_unsafe, no_query_rstrip, no_query_lstrip, Hs).
  destruct (Urllib.split_scheme _ _) as [sc u1] eqn:E1.
  destruct (split_scheme_no_query _ _ _ _ E1 Hu1 Hs1) as [Hsc Hu2].
  destruct (Urllib.split_authority bracketed_host_ok u1) as [[n u2]|e] eqn:E2;
    simpl in E; [|discriminate E].
  destruct (split_authority_no_query _ _ _ E2 Hu2) as [Hn Hu3].
  destruct (Urllib.split_once "#" u2) as [u3 f] eqn:E3.
  destruct (split_once_no_query _ _ _ _ E3 Hu3) as [Hu4 Hf].
  rewrite (split_once_query _ Hu4) in E. injection E as <-. simpl. auto.
Qed.

Lemma splitparams_no_query (url : string) :
  no_query url ->
  no_query (fst (Urllib.splitparams url))
  /\ no_query (snd (Urllib.splitparams url)).
Proof.
  intros H. unfold Urllib.splitparams.
  destruct (PyStr.has_char "/" url).
  - destruct (PyStr.rbreak "/" url) as [[head tail]|] eqn:R;
      [|split; [exact H | reflexivity]].
    pose proof H as H'. rewrite (rbreak_app _ _ _ _ R) in H'.
    apply no_query_app_inv in H'. destruct H' as [Hh Ht].
    destruct (PyStr.partition ";" tail) as [t o] eqn:P.
    destruct (no_query_partition _ _ _ _ P Ht) as [Hp Ho].
    destruct o as [ps|]; simpl; [|split; [exact H | reflexivity]].
    split; [apply no_query_app; assumption | exact Ho].
  - destruct (PyStr.partition ";" url) as [u o] eqn:P.
    destruct (no_query_partition _ _ _ _ P H) as [Hp Ho].
    destruct o as [ps|]; simpl; [auto|].
    split; [apply no_query_drop_last, H | exact H].
Qed.

Lemma urlparse_no_query (url scheme : string) (r : Urllib.ParseResult) :
  Urllib.urlparse bracketed_host_ok url scheme = Ok r ->
  no_query url -> no_query scheme ->
  no_query (Urllib.scheme r) /\ no_query (Urllib.netloc r)
  /\ no_query (Urllib.path r) /\ no_query (Urllib.params r)
  /\ Urllib.query r = EmptyString /\ no_query (Urllib.fragment r).
Proof.
  unfold Urllib.urlparse. intros E Hu Hs.
  destruct (Urllib.urlsplit bracketed_host_ok url scheme) as [sr|e] eqn:S;
    unfold bind in E; [|discriminate E].
  destruct (urlsplit_no_query _ _ _ S Hu Hs) as [H1 [H2 [H3 [H4 H5]]]].
  destruct (splitparams_no_query _ H3) as [P1 P2].
  destruct (Urllib.mem (Urllib.s_scheme sr) Urllib.uses_params
            && PyStr.has_char ";" (Urllib.s_path sr)).
  - destruct (Urllib.splitparams (Urllib.s_path sr)) as [u ps].
    injection E as <-. simpl in *. auto 8.
  - injection E as <-. simpl. repeat split; try assumption.
Qed.

Lemma urlunsplit_no_query (r : Urllib.SplitResult) :
  no_query (Urllib.s_scheme r) -> no_query (Urllib.s_netloc r) ->
  no_query (Urllib.s_path r) -> Urllib.s_query r = EmptyString ->
  no_query (Urllib.s_fragment r) ->
  no_query (Urllib.urlunsplit r).
Proof.
  intros H1 H2 H3 H4 H5. unfold Urllib.urlunsplit. rewrite H4.
  change (PyStr.truthy "") with false. cbv iota.
  assert (A : no_query
                (if PyStr.truthy (Urllib.s_netloc r)
                    || PyStr.truthy (Urllib.s_scheme r)
                       && Urllib.mem (Urllib.s_scheme r) Urllib.uses_netloc
                       && negb (String.prefix "//" (Urllib.s_path r))
                 then
                   ("//" ++ Urllib.s_netloc r
                    ++ (if PyStr.truthy (Urllib.s_path r)
                           && negb (String.prefix "/" (Urllib.s_path r))
                        then "/" ++ Urllib.s_path r
                        else Urllib.s_path r))%string
                 else Urllib.s_path r)).
  { destruct (_ || _); [|exact H3].
    apply (no_query_app "//"); [reflexivity|]. apply no_query_app; [exact H2|].
    destruct (_ && _); [|exact H3].
    apply (no_query_app "/"); [reflexivity | exact H3]. }
  cbv zeta.
  assert (B : forall body,
             no_query body ->
             no_query (if PyStr.truthy (Urllib.s_scheme r)
                       then (Urllib.s_scheme r ++ ":" ++ body)%string
                       else body)).
  { intros body Hb. destruct (PyStr.truthy (Urllib.s_scheme r)); [|exact Hb].
    apply no_query_app; [exact H1|].
    apply (no_query_app ":"); [reflexivity | exact Hb]. }
  destruct (PyStr.truthy (Urllib.s_fragment r)).
  - apply no_query_app; [apply B, A|].
    apply (no_query_app "#"); [reflexivity | exact H5].
  - apply B, A.
Qed.

Lemma urlunparse_no_query (p : Urllib.ParseResult) :
  no_query (Urllib.scheme p) -> no_query (Urllib.netloc p) ->
  no_query (Urllib.path p) -> no_query (Urllib.params p) ->
  Urllib.query p = EmptyString -> no_query (Urllib.fragment p) ->
  no_query (Urllib.urlunparse p).
Proof.
  intros H1 H2 H3 H4 H5 H6. unfold Urllib.urlunparse.
  apply urlunsplit_no_query; simpl; try assumption.
  destruct (PyStr.truthy (Urllib.params p)); [|exact H3].
  apply no_query_app; [exact H3|].
  apply (no_query_app ";"); [reflexivity | exact H4].
Qed.

Lemma urljoin_no_query (base url u : string) :
  urljoin base url = Ok u -> no_query base -> no_query url -> no_query u.
Proof.
  unfold urljoin, Urllib.urljoin. intros E Hb Hu.
  destruct (negb (PyStr.truthy base)); [injection E as <-; exact Hu|].
  destruct (negb (PyStr.truthy url)); [injection E as <-; exact Hb|].
  destruct (Urllib.urlparse bracketed_host_ok base "") as [b|e] eqn:B;
    unfold bind in E; [|discriminate E].
  destruct (urlparse_no_query _ _ _ B Hb eq_refl)
    as [B1 [B2 [B3 [B4 [B5 B6]]]]].
  destruct (Urllib.urlparse bracketed_host_ok url (Urllib.scheme b))
    as [r|e] eqn:R; [|discriminate E].
  destruct (urlparse_no_query _ _ _ R Hu B1) as [R1 [R2 [R3 [R4 [R5 R6]]]]].
  destruct (negb (Urllib.scheme r =? Urllib.scheme b)%string
            || negb (Urllib.mem (Urllib.scheme r) Urllib.uses_relative));
    [injection E as <-; exact Hu|].
  destruct (Urllib.mem (Urllib.scheme r) Urllib.uses_netloc
            && PyStr.truthy (Urllib.netloc r));
    [injection E as <-; apply urlunparse_no_query; assumption|].
  assert (N : no_query
                (if Urllib.mem (Urllib.scheme r) Urllib.uses_netloc
                 then Urllib.netloc b else Urllib.netloc r))
    by (destruct (Urllib.mem (Urllib.scheme r) Urllib.uses_netloc); assumption).
  cbv zeta in E.
  destruct (negb (PyStr.truthy (Urllib.path r))
            && negb (PyStr.truthy (Urllib.params r))).
  - injection E as <-. apply urlunparse_no_query; simpl; try assumption.
    rewrite R5, B5. reflexivity.
  - injection E as <-. apply urlunparse_no_query; simpl; try assumption.
    match goal with
    | |- no_query (if PyStr.truthy ?joined then _ else _) =>
        assert (J : no_query joined); [|destruct (PyStr.truthy joined);
                                        [exact J | reflexivity]]
    end.
    apply no_query_concat; [reflexivity|].
    assert (P : Forall no_query (PyStr.split "/" (Urllib.path r)))
      by (apply no_query_split, R3).
    assert (Q : Forall no_query
                  (if PyStr.truthy
                        (last (PyStr.split "/" (Urllib.path b)) EmptyString)
                   then Urllib.but_last (PyStr.split "/" (Urllib.path b))
                   else PyStr.split "/" (Urllib.path b))).
    { destruct (PyStr.truthy _);
        [apply Forall_removelast|]; apply no_query_split, B3. }
    assert (S : Forall no_query
                  (if String.prefix "/" (Urllib.path r)
                   then PyStr.split "/" (Urllib.path r)
                   else Urllib.filter_middle
                          ((if PyStr.truthy
                                 (last (PyStr.split "/" (Urllib.path b))
                                    EmptyString)
                            then Urllib.but_last
                                   (PyStr.split "/" (Urllib.path b))
                            else PyStr.split "/" (Urllib.path b))
                           ++ PyStr.split "/" (Urllib.path r)))).
    { destruct (String.prefix "/" (Urllib.path r)); [exact P|].
      apply Forall_filter_middle, Forall_app. auto. }
    assert (T : forall segs,
               Forall no_query segs ->
               Forall no_query (Urllib.resolve segs [])).
    { intros segs Hs. apply Forall_resolve; [exact Hs | constructor]. }
    match goal with
    | |- Forall _ (if ?c then _ else _) => destruct c; [|apply T, S]
    end.
    apply Forall_app. split; [apply T, S | repeat constructor].
Qed.

Lemma absolute_of_no_query (href u : string) :
  absolute_of href = Ok u -> no_query u.
Proof.
  unfold absolute_of. intros E.
  apply (urljoin_no_query _ _ _ E); [reflexivity|].
  apply (proj1 (truncated_at_first_question_mark href)).
Qed.

(** No URL that [extract_site_links] returns has a query string. *)
Lemma extract_site_links_no_query (listing_html : string) (links : list string) :
  extract_site_links listing_html = Ok links -> Forall no_query links.
Proof.
  intros H. apply Forall_forall. intros u Hu.
  destruct (extract_site_links_origin _ _ _ H Hu) as [a [href [_ [_ [_ A]]]]].
  exact (absolute_of_no_query _ _ A).
Qed.

Lemma listing_url_has_query (page : Z) : ~ no_query (LISTING_TEMPLATE page).
Proof.
  unfold no_query, LISTING_TEMPLATE. rewrite has_char_app. discriminate.
Qed.

End NoQuery.

(** ** What [extract_site_links] returns *)




(** C6.  Every anchor that passes the guard has its href cut at the first
    question mark and the remainder resolved against the fixed base URL by
    one and the same [urljoin], whether the href is absolute or relative;
    the result is among the returned links, and no returned link has a
    question mark left: the query parameters are gone.  On the href
    "/sites/42?ref=home" the returned URL is
    "https://www.awwwards.com/sites/42". *)
Theorem extract_site_links_resolves_truncated_href {W : World} :
  (forall listing_html links a,
     extract_site_links listing_html = Ok links ->
     In a (BeautifulSoup listing_html) -> eligible a = true ->
     exists href pre u,
       tag_href a = Some href
       /\ PyStr.has_char "?" pre = false
       /\ (href = pre \/ exists post, href = (pre ++ String "?" post)%string)
       /\ urljoin BASE_URL pre = Ok u
       /\ In u links)
  /\ (forall listing_html links u,
        extract_site_links listing_html = Ok links -> In u links ->
        PyStr.has_char "?" u = false)
  /\ (forall listing_html label,
        BeautifulSoup listing_html
        = [mkAnchor (Some "/sites/42?ref=home") label] ->
        extract_site_links listing_html
        = Ok ["https://www.awwwards.com/sites/42"]).
Proof.
  split; [|split].
  - intros listing_html links a H Ha E.
    destruct (extract_site_links_raw _ _ H) as [raw [F ->]].
    assert (Ha' : In a (filter eligible (BeautifulSoup listing_html)))
      by (apply filter_In; auto).
    destruct (Forall2_In_left _ _ _ _ F Ha') as [u [Hu [href [Hh A]]]].
    destruct (truncated_at_first_question_mark href) as [Q1 Q2].
    exists href, (hd EmptyString (PyStr.split "?" href)), u.
    repeat split; try assumption. apply first_occurrences_In, Hu.
  - intros listing_html links u H Hu.
    exact (proj1 (Forall_forall _ _) (extract_site_links_no_query _ _ H) u Hu).
  - intros listing_html label H.
    unfold extract_site_links. rewrite H. reflexivity.
Qed.

Lemma extract_site_links_resolves_truncated_href_witness :
  (exists href pre u,
     Some "/sites/42?ref=home" = Some href
     /\ PyStr.has_char "?" pre = false
     /\ (href = pre \/ exists post, href = (pre ++ String "?" post)%string)
     /\ urljoin (W := Demo.world) BASE_URL pre = Ok u
     /\ In u ["https://www.awwwards.com/sites/42"])
  /\ PyStr.has_char "?" "https://www.awwwards.com/sites/42" = false
  /\ extract_site_links (W := Demo.world) "listing-42"
     = Ok ["https://www.awwwards.com/sites/42"].
Proof.
  destruct (@extract_site_links_resolves_truncated_href Demo.world)
    as [P1 [P0 P2]].
  split; [|split; [apply (P0 "listing-42" _ _ eq_refl); left; reflexivity|]].
  - apply (P1 "listing-42" ["https://www.awwwards.com/sites/42"]
              (Demo.a "/sites/42?ref=home" "Forty-two")).
    + reflexivity.
    + left. reflexivity.
    + reflexivity.
  - apply (P2 "listing-42" (Some "Forty-two")). reflexivity.
Defined.



(** ** What [extract_visit_site] returns *)

Section VisitSite.

Context {W : World}.




End VisitSite.



(** ** The dictionary *)

Section DictFacts.

Lemma dict_in_keys (k : string) (d : dict) :
  dict_in k d = true <-> In k (keys d).
Proof.
  unfold dict_in, keys. rewrite existsb_exists, in_map_iff. split.
  - intros [kv [H E]]. apply String.eqb_eq in E. exists kv. auto.
  - intros [kv [E H]]. exists kv. split; [exact H|].
    apply String.eqb_eq, E.
Qed.

Lemma dict_in_false (k : string) (d : dict) :
  dict_in k d = false <-> ~ In k (keys d).
Proof.
  rewrite <- dict_in_keys. destruct (dict_in k d); split; congruence.
Qed.

Lemma dict_in_cons (k k' : string) (v : option string) (d : dict) :
  dict_in k ((k', v) :: d) = (k' =? k)%string || dict_in k d.
Proof. reflexivity. Qed.

(** Assigning to an absent key appends the entry. *)
Lemma dict_set_absent (k : string) (v : option string) (d : dict) :
  dict_in k d = false -> dict_set k v d = d ++ [(k, v)].
Proof.
  induction d as [|[k' v'] d IH]; [reflexivity|].
  rewrite dict_in_cons. intros H. apply orb_false_elim in H.
  destruct H as [H1 H2]. simpl. rewrite H1, (IH H2). reflexivity.
Qed.

Lemma dict_get_app (k : string) (d e : dict) :
  dict_get k (d ++ e)
  = match dict_get k d with
    | Some v => Some v
    | None => dict_get k e
    end.
Proof.
  induction d as [|[k' v'] d IH]; simpl; [reflexivity|].
  destruct (k' =? k)%string; [reflexivity | exact IH].
Qed.


Lemma keys_app (d e : dict) : keys (d ++ e) = keys d ++ keys e.
Proof. apply map_app. Qed.

End DictFacts.

(** ** The delay *)

Section DelayFacts.




End DelayFacts.

(** ** The crawl, step by step *)

Section CrawlFacts.

Context {W : World}.
Variable delay : Q.
Variable max_sites : option Z.

Lemma fetch_html_raises (url : string) (e : exn) :
  fetch_html url = Raise e -> e = RequestException.
Proof.
  unfold fetch_html. destruct (requests_get url) as [r|].
  - destruct ((400 <=? status_code r)%Z && (status_code r <? 600)%Z);
      congruence.
  - congruence.
Qed.


Lemma state_eta (st : state) : mkState (results st) (trace st) = st.
Proof. destruct st; reflexivity. Qed.

Lemma after_store_spec (st : state) :
  after_store delay max_sites st
  = if negative delay then Throw ValueError st
    else let st' := mkState (results st) (trace st ++ pause delay) in
         if cap_reached max_sites (results st) then Return st' else Next st'.
Proof.
  unfold after_store, sleep, negative, pause, positive, log.
  destruct (Qeq_bool delay 0); simpl.
  - rewrite app_nil_r, state_eta. reflexivity.
  - destruct (Qle_bool 0 delay); reflexivity.
Qed.

(** One iteration of the inner loop, in closed form. *)
Lemma visit_spec (u : string) (st : state) :
  visit delay max_sites u st
  = if dict_in u (results st) then Next st
    else
      let d := results st ++ [(u, detail_value u)] in
      if negative delay
      then Throw ValueError (mkState d (trace st ++ [EGet Detail u]))
      else
        let st' := mkState d (trace st ++ EGet Detail u :: pause delay) in
        if cap_reached max_sites d then Return st' else Next st'.
Proof.
  unfold visit. destruct (dict_in u (results st)) eqn:D; [reflexivity|].
  assert (S : forall v,
             after_store delay max_sites
               (store u v (log (EGet Detail u) st))
             = if negative delay
               then Throw ValueError
                      (mkState (results st ++ [(u, v)])
                               (trace st ++ [EGet Detail u]))
               else
                 if cap_reached max_sites (results st ++ [(u, v)])
                 then Return (mkState (results st ++ [(u, v)])
                                (trace st ++ EGet Detail u :: pause delay))
                 else Next (mkState (results st ++ [(u, v)])
                              (trace st ++ EGet Detail u :: pause delay))).
  { intros v. rewrite after_store_spec. unfold store, log. simpl.
    rewrite (dict_set_absent _ _ _ D), <- app_assoc. reflexivity. }
  unfold detail_value.
  destruct (fetch_html u) as [html|e] eqn:F; [apply S|].
  rewrite (fetch_html_raises _ _ F). apply S.
Qed.

(** A property of states kept by every step is kept by the loops. *)
Lemma for_sites_invariant (I : state -> Prop) :
  (forall u st, I st -> I (flow_state (visit delay max_sites u st))) ->
  forall links st, I st -> I (flow_state (for_sites delay max_sites links st)).
Proof.
  intros Hv links. induction links as [|u links IH]; intros st H; [exact H|].
  simpl. specialize (Hv u st H).
  destruct (visit delay max_sites u st); simpl in *; auto.
Qed.

Lemma visit_page_invariant (I : state -> Prop) :
  (forall u st, I st -> I (flow_state (visit delay max_sites u st))) ->
  (forall l st, I st -> I (log (EGet Listing l) st)) ->
  forall page st, I st -> I (flow_state (visit_page delay max_sites page st)).
Proof.
  intros Hv Hl page st H. unfold visit_page.
  specialize (Hl (LISTING_TEMPLATE page) st H).
  destruct (fetch_html (LISTING_TEMPLATE page)); [|exact Hl].
  destruct (extract_site_links a); [|exact Hl].
  apply for_sites_invariant; assumption.
Qed.

Lemma for_pages_invariant (I : state -> Prop) :
  (forall u st, I st -> I (flow_state (visit delay max_sites u st))) ->
  (forall l st, I st -> I (log (EGet Listing l) st)) ->
  forall pages st, I st -> I (flow_state (for_pages delay max_sites pages st)).
Proof.
  intros Hv Hl pages. induction pages as [|p pages IH]; intros st H;
    [exact H|].
  simpl. pose proof (visit_page_invariant I Hv Hl p st H) as Hp.
  destruct (visit_page delay max_sites p st); simpl in *; auto.
Qed.

(** The same, telling a loop that goes on from one that stops. *)
Lemma for_sites_rule (I : state -> Prop) (F : flow -> Prop) :
  (forall u st, I st ->
     match visit delay max_sites u st with
     | Next st' => I st'
     | stop => F stop
     end) ->
  forall links st, I st ->
    match for_sites delay max_sites links st with
    | Next st' => I st'
    | stop => F stop
    end.
Proof.
  intros Hv links. induction links as [|u links IH]; intros st H; [exact H|].
  simpl. specialize (Hv u st H).
  destruct (visit delay max_sites u st); [apply IH| |]; exact Hv.
Qed.

Lemma for_pages_rule (I : state -> Prop) (F : flow -> Prop) :
  (forall u st, I st ->
     match visit delay max_sites u st with
     | Next st' => I st'
     | stop => F stop
     end) ->
  (forall l st, I st ->
     I (log (EGet Listing l) st)
     /\ forall e, F (Throw e (log (EGet Listing l) st))) ->
  forall pages st, I st ->
    match for_pages delay max_sites pages st with
    | Next st' => I st'
    | stop => F stop
    end.
Proof.
  intros Hv Hl pages. induction pages as [|p pages IH]; intros st H;
    [exact H|].
  simpl.
  assert (Hp : match visit_page delay max_sites p st with
               | Next st' => I st'
               | stop => F stop
               end).
  { unfold visit_page. destruct (Hl (LISTING_TEMPLATE p) st H) as [H1 H2].
    destruct (fetch_html (LISTING_TEMPLATE p)) as [html|e]; [|apply H2].
    destruct (extract_site_links html) as [links|e]; [|apply H2].
    apply for_sites_rule; assumption. }
  destruct (visit_page delay max_sites p st); [apply IH| |]; exact Hp.
Qed.

(** *** Traces *)

Lemma detail_gets_app (t1 t2 : list event) :
  detail_gets (t1 ++ t2) = detail_gets t1 ++ detail_gets t2.
Proof.
  induction t1 as [|e t1 IH]; simpl; [reflexivity|].
  destruct e as [[|] u| | | |]; simpl; rewrite IH; reflexivity.
Qed.

Lemma listing_gets_app (t1 t2 : list event) :
  listing_gets (t1 ++ t2) = listing_gets t1 ++ listing_gets t2.
Proof.
  induction t1 as [|e t1 IH]; simpl; [reflexivity|].
  destruct e as [[|] u| | | |]; simpl; rewrite IH; reflexivity.
Qed.

Lemma detail_gets_pause : detail_gets (pause delay) = [].
Proof. unfold pause. destruct (positive delay); reflexivity. Qed.

Lemma listing_gets_pause : listing_gets (pause delay) = [].
Proof. unfold pause. destruct (positive delay); reflexivity. Qed.

Lemma negative_not_positive : negative delay = true -> positive delay = false.
Proof.
  unfold negative, positive. destruct (Qeq_bool delay 0); simpl;
    [reflexivity|].
  destruct (Qle_bool 0 delay); simpl; congruence.
Qed.

Lemma paced_app (t1 t2 : list event) :
  forall pending,
    paced delay pending t1 -> paced delay false t2 ->
    paced delay pending (t1 ++ t2).
Proof.
  induction t1 as [|e t1 IH]; intros pending H1 H2; simpl in *.
  - subst. exact H2.
  - destruct e as [[|] u|d| | |]; intuition auto.
Qed.

Lemma paced_detail (u : string) :
  paced delay false (EGet Detail u :: pause delay).
Proof.
  unfold pause. simpl. split; [reflexivity|].
  destruct (positive delay); simpl; auto.
Qed.

(** *** The state stays consistent *)

Lemma log_listing_consistent (l : string) (st : state) :
  consistent delay st -> consistent delay (log (EGet Listing l) st).
Proof.
  intros [H1 [H2 [H3 H4]]]. unfold consistent, log. simpl.
  rewrite detail_gets_app, app_nil_r. repeat split; try assumption.
  apply paced_app; simpl; auto.
Qed.

Lemma append_consistent (u : string) (st : state) (t : list event) :
  consistent delay st ->
  dict_in u (results st) = false ->
  detail_gets t = [u] -> paced delay false t ->
  consistent delay
    (mkState (results st ++ [(u, detail_value u)]) (trace st ++ t)).
Proof.
  intros [H1 [H2 [H3 H4]]] D Ht Pt. unfold consistent. simpl.
  rewrite keys_app, detail_gets_app, Ht, H2. simpl.
  repeat split.
  - apply NoDup_app; [exact H1 | repeat constructor; simpl; tauto |].
    intros a Ha [<- | []]. apply dict_in_false in D. exact (D Ha).
  - intros k v Hk. apply in_app_or in Hk. destruct Hk as [Hk | [Hk | []]].
    + exact (H3 k v Hk).
    + injection Hk as <- <-. reflexivity.
  - apply paced_app; assumption.
Qed.

Lemma visit_consistent (u : string) (st : state) :
  consistent delay st ->
  consistent delay (flow_state (visit delay max_sites u st)).
Proof.
  intros H. rewrite visit_spec.
  destruct (dict_in u (results st)) eqn:D; [exact H|].
  destruct (negative delay) eqn:N.
  - simpl. apply append_consistent; try assumption; [reflexivity|].
    simpl. rewrite (negative_not_positive N). auto.
  - assert (C : consistent delay
                  (mkState (results st ++ [(u, detail_value u)])
                           (trace st ++ EGet Detail u :: pause delay))).
    { apply append_consistent; try assumption; [|apply paced_detail].
      simpl. rewrite detail_gets_pause. reflexivity. }
    simpl. destruct (cap_reached max_sites _); exact C.
Qed.

Lemma for_pages_consistent (pages : list Z) (st : state) :
  consistent delay st ->
  consistent delay (flow_state (for_pages delay max_sites pages st)).
Proof.
  apply for_pages_invariant.
  - apply visit_consistent.
  - apply log_listing_consistent.
Qed.

Lemma empty_consistent : consistent delay (mkState [] []).
Proof.
  unfold consistent. simpl. repeat split; [constructor | tauto].
Qed.

(** *** The state only grows *)

Lemma extends_refl (st : state) : extends st st.
Proof. split; exists []; rewrite app_nil_r; reflexivity. Qed.

Lemma extends_trans (a b c : state) : extends a b -> extends b c -> extends a c.
Proof.
  intros [[d1 H1] [t1 G1]] [[d2 H2] [t2 G2]]. split.
  - exists (d1 ++ d2). rewrite H2, H1, app_assoc. reflexivity.
  - exists (t1 ++ t2). rewrite G2, G1, app_assoc. reflexivity.
Qed.

Lemma visit_extends (u : string) (st : state) :
  extends st (flow_state (visit delay max_sites u st)).
Proof.
  rewrite visit_spec. destruct (dict_in u (results st)); [apply extends_refl|].
  destruct (negative delay); simpl.
  - split; simpl; eauto.
  - destruct (cap_reached max_sites _); split; simpl; eauto.
Qed.

Lemma log_extends (e : event) (st : state) : extends st (log e st).
Proof. split; simpl; [exists []; rewrite app_nil_r|]; eauto. Qed.

Lemma for_sites_extends (links : list string) (st : state) :
  extends st (flow_state (for_sites delay max_sites links st)).
Proof.
  apply (for_sites_invariant (extends st)); [|apply extends_refl].
  intros u st' H. exact (extends_trans _ _ _ H (visit_extends u st')).
Qed.

Lemma for_pages_extends (pages : list Z) (st : state) :
  extends st (flow_state (for_pages delay max_sites pages st)).
Proof.
  apply (for_pages_invariant (extends st)); [| |apply extends_refl].
  - intros u st' H. exact (extends_trans _ _ _ H (visit_extends u st')).
  - intros l st' H. exact (extends_trans _ _ _ H (log_extends _ st')).
Qed.

Lemma extends_keys (a b : state) (k : string) :
  extends a b -> In k (keys (results a)) -> In k (keys (results b)).
Proof.
  intros [[d H] _] Hk. rewrite H, keys_app. apply in_or_app. auto.
Qed.

Lemma extends_get (a b : state) (k : string) (v : option string) :
  extends a b -> dict_get k (results a) = Some v ->
  dict_get k (results b) = Some v.
Proof.
  intros [[d H] _] Hk. rewrite H, dict_get_app, Hk. reflexivity.
Qed.

End CrawlFacts.

(** ** The crawl as a whole *)

Section RunFacts.

Context {W : World}.
Variable delay : Q.
Variable max_sites : option Z.

Lemma finish_trace (f : flow) : snd (finish f) = trace (flow_state f).
Proof. destruct f; reflexivity. Qed.

Lemma finish_returns (f : flow) (m : dict) :
  fst (finish f) = Returns m -> m = results (flow_state f).
Proof. destruct f; simpl; congruence. Qed.

Lemma scrape_trace (pages : list Z) :
  snd (scrape_awwwards pages delay max_sites)
  = trace (flow_state (for_pages delay max_sites pages (mkState [] []))).
Proof. apply finish_trace. Qed.

Lemma scrape_returns (pages : list Z) (m : dict) :
  fst (scrape_awwwards pages delay max_sites) = Returns m ->
  m = results (flow_state (for_pages delay max_sites pages (mkState [] []))).
Proof. apply finish_returns. Qed.

Lemma scrape_consistent (pages : list Z) :
  consistent delay
    (flow_state (for_pages delay max_sites pages (mkState [] []))).
Proof. apply for_pages_consistent, empty_consistent. Qed.

(** *** Pacing *)





End RunFacts.

(** C10.  On the empty sequence of pages [scrape_awwwards] returns the
    empty map and fetches nothing; and an entry of the map, once stored,
    keeps its value to the end of the crawl: whatever is left to do, the rest
    of a page or further pages, the map only gets new entries after the
    existing ones. *)
Theorem empty_crawl_and_entries_kept {W : World}
  (delay : Q) (max_sites : option Z) :
  scrape_awwwards [] delay max_sites = (Returns [], [])
  /\ (forall links st k v,
        dict_get k (results st) = Some v ->
        dict_get k (results (flow_state (for_sites delay max_sites links st)))
        = Some v)
  /\ (forall pages st k v,
        dict_get k (results st) = Some v ->
        dict_get k (results (flow_state (for_pages delay max_sites pages st)))
        = Some v)
  /\ (forall pages st,
        exists new,
          results (flow_state (for_pages delay max_sites pages st))
          = results st ++ new).
Proof.
  split; [reflexivity|]. split; [|split].
  - intros links st k v H.
    exact (extends_get _ _ _ _ (for_sites_extends delay max_sites links st) H).
  - intros pages st k v H.
    exact (extends_get _ _ _ _ (for_pages_extends delay max_sites pages st) H).
  - intros pages st.
    exact (proj1 (for_pages_extends delay max_sites pages st)).
Qed.

Lemma empty_crawl_and_entries_kept_witness :
  dict_get "https://www.awwwards.com/sites/alpha" (results Demo.after_page_1)
  = Some (Some "https://alpha.example/")
  /\ dict_get "https://www.awwwards.com/sites/alpha"
       (results (flow_state (for_pages (W := Demo.world) 0 None [1%Z; 2%Z]
                               Demo.after_page_1)))
     = Some (Some "https://alpha.example/")
  /\ dict_get "https://www.awwwards.com/sites/alpha"
       (results (flow_state (for_sites (W := Demo.world) 0 None
                               ["https://www.awwwards.com/sites/alpha";
                                "https://www.awwwards.com/sites/gamma"]
                               Demo.after_page_1)))
     = Some (Some "https://alpha.example/").
Proof.
  assert (H : dict_get "https://www.awwwards.com/sites/alpha"
                (results Demo.after_page_1)
              = Some (Some "https://alpha.example/")) by reflexivity.
  split; [exact H|]. split.
  - exact (proj1 (proj2 (proj2 (empty_crawl_and_entries_kept
                                  (W := Demo.world) 0 None)))
             [1%Z; 2%Z] Demo.after_page_1 _ _ H).
  - exact (proj1 (proj2 (empty_crawl_and_entries_kept
                           (W := Demo.world) 0 None))
             ["https://www.awwwards.com/sites/alpha";
              "https://www.awwwards.com/sites/gamma"]
             Demo.after_page_1 _ _ H).
Defined.



(** ** Every discovered link is fetched once *)

Section Dedup.

Context {W : World}.
Variable delay : Q.
Variable max_sites : option Z.

Lemma in_removelast {A : Type} (x : A) (l : list A) :
  In x (removelast l) -> In x l.
Proof.
  induction l as [|y l IH]; simpl; [tauto|].
  destruct l as [|z l]; [tauto|]. intros [H | H]; auto.
Qed.

Lemma all_pages_done_earlier (st : state) :
  all_pages_done st -> earlier_pages_done st.
Proof.
  intros H l u Hl. apply H, in_removelast, Hl.
Qed.

Lemma visit_next_key (u : string) (st st' : state) :
  visit delay max_sites u st = Next st' -> In u (keys (results st')).
Proof.
  rewrite visit_spec. destruct (dict_in u (results st)) eqn:D.
  - intros E. injection E as <-. apply dict_in_keys, D.
  - destruct (negative delay); [discriminate|]. cbv zeta.
    destruct (cap_reached max_sites _); [discriminate|].
    intros E. injection E as <-. simpl. rewrite keys_app.
    apply in_or_app. right. left. reflexivity.
Qed.

(** A page whose loop runs to its end leaves all its links as keys. *)
Lemma for_sites_next_keys (links : list string) :
  forall st st',
    for_sites delay max_sites links st = Next st' ->
    forall u, In u links -> In u (keys (results st')).
Proof.
  induction links as [|x links IH]; intros st st' H u Hu; [destruct Hu|].
  simpl in H. destruct (visit delay max_sites x st) as [st1| |] eqn:V;
    try discriminate H.
  destruct Hu as [<- | Hu]; [|exact (IH _ _ H u Hu)].
  pose proof (for_sites_extends delay max_sites links st1) as X.
  rewrite H in X. exact (extends_keys _ _ _ X (visit_next_key _ _ _ V)).
Qed.

Lemma visit_listing_gets (u : string) (st : state) :
  listing_gets (trace (flow_state (visit delay max_sites u st)))
  = listing_gets (trace st).
Proof.
  rewrite visit_spec. destruct (dict_in u (results st)); [reflexivity|].
  destruct (negative delay); simpl.
  - rewrite listing_gets_app, app_nil_r. reflexivity.
  - assert (E : listing_gets (trace st ++ EGet Detail u :: pause delay)
                = listing_gets (trace st)).
    { rewrite listing_gets_app. simpl.
      rewrite listing_gets_pause, app_nil_r. reflexivity. }
    destruct (cap_reached max_sites _); exact E.
Qed.

Lemma for_sites_listing_gets (links : list string) (st : state) :
  listing_gets (trace (flow_state (for_sites delay max_sites links st)))
  = listing_gets (trace st).
Proof.
  apply (for_sites_invariant delay max_sites
           (fun s => listing_gets (trace s) = listing_gets (trace st)));
    [|reflexivity].
  intros u s H. rewrite visit_listing_gets. exact H.
Qed.

Lemma links_at_ok (l html : string) (links : list string) :
  fetch_html l = Ok html -> extract_site_links html = Ok links ->
  links_at l = links.
Proof. unfold links_at. intros -> ->. reflexivity. Qed.

Lemma visit_page_done (page : Z) (st : state) :
  all_pages_done st ->
  match visit_page delay max_sites page st with
  | Next st' => all_pages_done st'
  | stop => earlier_pages_done (flow_state stop)
  end.
Proof.
  intros H. unfold visit_page.
  set (l := LISTING_TEMPLATE page). set (st1 := log (EGet Listing l) st).
  assert (L1 : listing_gets (trace st1) = listing_gets (trace st) ++ [l]).
  { unfold st1, log. simpl. rewrite listing_gets_app. reflexivity. }
  assert (E1 : earlier_pages_done st1).
  { intros l' u Hl. rewrite L1, removelast_last in Hl. exact (H l' u Hl). }
  destruct (fetch_html l) as [html|e] eqn:F; [|exact E1].
  destruct (extract_site_links html) as [links|e] eqn:X; [|exact E1].
  pose proof (for_sites_extends delay max_sites links st1) as Ext.
  pose proof (for_sites_listing_gets links st1) as L2.
  rewrite L1 in L2.
  assert (Old : forall l' u,
             In l' (listing_gets (trace st)) -> In u (links_at l') ->
             In u (keys (results
               (flow_state (for_sites delay max_sites links st1))))).
  { intros l' u Hl Hu. apply (extends_keys _ _ _ Ext). exact (H l' u Hl Hu). }
  destruct (for_sites delay max_sites links st1) as [st'|st'|e st'] eqn:S;
    simpl in *.
  - intros l' u Hl Hu. rewrite L2 in Hl. apply in_app_or in Hl.
    destruct Hl as [Hl | [<- | []]]; [exact (Old l' u Hl Hu)|].
    rewrite (links_at_ok _ _ _ F X) in Hu.
    exact (for_sites_next_keys _ _ _ S u Hu).
  - intros l' u Hl. rewrite L2, removelast_last in Hl. exact (Old l' u Hl).
  - intros l' u Hl. rewrite L2, removelast_last in Hl. exact (Old l' u Hl).
Qed.

Lemma for_pages_done (pages : list Z) :
  forall st,
    all_pages_done st ->
    earlier_pages_done (flow_state (for_pages delay max_sites pages st)).
Proof.
  induction pages as [|p pages IH]; intros st H.
  - apply all_pages_done_earlier, H.
  - simpl. pose proof (visit_page_done p st H) as Hp.
    destruct (visit_page delay max_sites p st); [apply IH| |]; exact Hp.
Qed.

Lemma listed_twice (t1 t2 t3 : list event) (l1 l2 : string) :
  In l1 (removelast
           (listing_gets (t1 ++ EGet Listing l1 :: t2 ++ EGet Listing l2 :: t3))).
Proof.
  rewrite listing_gets_app. simpl. rewrite listing_gets_app. simpl.
  rewrite removelast_app by discriminate.
  apply in_or_app. right.
  change (l1 :: listing_gets t2 ++ l2 :: listing_gets t3)
    with ([l1] ++ (listing_gets t2 ++ l2 :: listing_gets t3)).
  rewrite removelast_app; [left; reflexivity|].
  destruct (listing_gets t2); discriminate.
Qed.

Lemma count_once (l : list string) (u : string) :
  NoDup l -> In u l -> count_occ string_dec l u = 1%nat.
Proof.
  intros N. apply (proj1 (NoDup_count_occ' string_dec l) N).
Qed.

Lemma count_at_most_once (l : list string) (u : string) :
  NoDup l -> (count_occ string_dec l u <= 1)%nat.
Proof.
  intros N. apply (proj1 (NoDup_count_occ string_dec l) N).
Qed.

(** *** Detail URLs and listing URLs are apart *)

Lemma visit_no_query (u : string) (st : state) :
  no_query u -> Forall no_query (keys (results st)) ->
  Forall no_query (keys (results (flow_state (visit delay max_sites u st)))).
Proof.
  intros Hu H. rewrite visit_spec.
  destruct (dict_in u (results st)); [exact H|].
  assert (K : Forall no_query (keys (results st ++ [(u, detail_value u)]))).
  { rewrite keys_app. apply Forall_app. split; [exact H|].
    repeat constructor. exact Hu. }
  destruct (negative delay); [exact K|]. cbv zeta.
  destruct (cap_reached max_sites _); exact K.
Qed.

Lemma for_sites_no_query (links : list string) :
  Forall no_query links ->
  forall st,
    Forall no_query (keys (results st)) ->
    Forall no_query
      (keys (results (flow_state (for_sites delay max_sites links st)))).
Proof.
  induction 1 as [|u links Hu _ IH]; intros st H; [exact H|].
  simpl. pose proof (visit_no_query u st Hu H) as V.
  destruct (visit delay max_sites u st); [apply IH| |]; exact V.
Qed.

Lemma visit_page_no_query (page : Z) (st : state) :
  Forall no_query (keys (results st)) ->
  Forall no_query
    (keys (results (flow_state (visit_page delay max_sites page st)))).
Proof.
  intros H. unfold visit_page.
  destruct (fetch_html (LISTING_TEMPLATE page)) as [html|e]; [|exact H].
  destruct (extract_site_links html) as [links|e] eqn:X; [|exact H].
  apply for_sites_no_query; [|exact H].
  exact (extract_site_links_no_query _ _ X).
Qed.

Lemma for_pages_no_query (pages : list Z) :
  forall st,
    Forall no_query (keys (results st)) ->
    Forall no_query
      (keys (results (flow_state (for_pages delay max_sites pages st)))).
Proof.
  induction pages as [|p pages IH]; intros st H; [exact H|].
  simpl. pose proof (visit_page_no_query p st H) as V.
  destruct (visit_page delay max_sites p st); [apply IH| |]; exact V.
Qed.

Lemma visit_page_listing_gets (page : Z) (st : state) :
  listing_gets (trace (flow_state (visit_page delay max_sites page st)))
  = listing_gets (trace st) ++ [LISTING_TEMPLATE page].
Proof.
  unfold visit_page.
  assert (L : listing_gets
                (trace (log (EGet Listing (LISTING_TEMPLATE page)) st))
              = listing_gets (trace st) ++ [LISTING_TEMPLATE page])
    by (simpl; apply listing_gets_app).
  destruct (fetch_html (LISTING_TEMPLATE page)) as [html|e]; [|exact L].
  destruct (extract_site_links html) as [links|e]; [|exact L].
  rewrite for_sites_listing_gets. exact L.
Qed.

Lemma for_pages_listing_gets (pages : list Z) :
  forall st l,
    In l (listing_gets
            (trace (flow_state (for_pages delay max_sites pages st)))) ->
    In l (listing_gets (trace st))
    \/ exists p, In p pages /\ l = LISTING_TEMPLATE p.
Proof.
  induction pages as [|p pages IH]; intros st l H; [left; exact H|].
  simpl in H. pose proof (visit_page_listing_gets p st) as V.
  assert (G : In l (listing_gets (trace st) ++ [LISTING_TEMPLATE p]) ->
              In l (listing_gets (trace st))
              \/ exists q, In q (p :: pages) /\ l = LISTING_TEMPLATE q).
  { intros I. apply in_app_or in I. destruct I as [I | [<- | []]];
      [left; exact I | right; exists p; split; [left|]; reflexivity]. }
  destruct (visit_page delay max_sites p st) as [st1|st1|e st1];
    simpl in V, H; [|rewrite V in H; exact (G H)..].
  destruct (IH st1 l H) as [I | [q [Hq ->]]].
  - rewrite V in I. exact (G I).
  - right. exists q. split; [right; exact Hq | reflexivity].
Qed.

End Dedup.

(** C3.  Over a whole crawl no detail URL is fetched more than once; the
    detail pages fetched are the keys of the returned map, in order and
    without repetition; a detail URL that two fetched listing pages both
    link to is fetched exactly once and is exactly one key of the map; and
    a detail URL, having no query string, is never the URL of a listing
    request. *)
Theorem detail_page_fetched_once {W : World}
  (pages : list Z) (delay : Q) (max_sites : option Z) :
  let run := scrape_awwwards pages delay max_sites in
  (forall u, (count_occ string_dec (detail_gets (snd run)) u <= 1)%nat)
  /\ (forall m,
        fst run = Returns m ->
        NoDup (keys m) /\ detail_gets (snd run) = keys m)
  /\ (forall t1 l1 t2 l2 t3 u,
        snd run = t1 ++ EGet Listing l1 :: t2 ++ EGet Listing l2 :: t3 ->
        In u (links_at l1) -> In u (links_at l2) ->
        count_occ string_dec (detail_gets (snd run)) u = 1%nat
        /\ forall m,
             fst run = Returns m -> count_occ string_dec (keys m) u = 1%nat)
  /\ (forall u,
        In u (detail_gets (snd run)) ->
        no_query u /\ ~ In u (listing_gets (snd run))).
Proof.
  intros run. unfold run.
  destruct (scrape_consistent delay max_sites pages) as [N [G _]].
  assert (D : earlier_pages_done
                (flow_state (for_pages delay max_sites pages (mkState [] [])))).
  { apply for_pages_done. intros l u []. }
  assert (Q : Forall no_query
                (keys (results (flow_state
                   (for_pages delay max_sites pages (mkState [] []))))))
    by (apply for_pages_no_query; constructor).
  rewrite scrape_trace, G. split; [|split; [|split]]; cycle 3.
  { intros u Hu. pose proof (proj1 (Forall_forall _ _) Q u Hu) as Hq.
    split; [exact Hq|]. intros L.
    apply for_pages_listing_gets in L. destruct L as [[] | [p [_ ->]]].
    exact (listing_url_has_query p Hq). }
  - intros u. apply count_at_most_once, N.
  - intros m Hm. apply scrape_returns in Hm. subst m. auto.
  - intros t1 l1 t2 l2 t3 u E H1 _.
    assert (K : In u (keys (results (flow_state
                  (for_pages delay max_sites pages (mkState [] [])))))).
    { apply (D l1 u); [|exact H1]. rewrite E. apply listed_twice. }
    split; [apply count_once; assumption|].
    intros m Hm. apply scrape_returns in Hm. subst m.
    apply count_once; assumption.
Qed.

Lemma detail_page_fetched_once_witness :
  snd Demo.full_run
  = [] ++ EGet Listing "https://www.awwwards.com/websites/?page=1"
    :: [EGet Detail "https://www.awwwards.com/sites/alpha";
        EGet Detail "https://www.awwwards.com/sites/beta"]
    ++ EGet Listing "https://www.awwwards.com/websites/?page=2"
    :: [EGet Detail "https://www.awwwards.com/sites/gamma";
        EGet Detail "https://www.awwwards.com/sites/delta";
        EGet Detail "https://www.awwwards.com/sites/epsilon"]
  /\ In "https://www.awwwards.com/sites/beta"
       (links_at (W := Demo.world) "https://www.awwwards.com/websites/?page=1")
  /\ In "https://www.awwwards.com/sites/beta"
       (links_at (W := Demo.world) "https://www.awwwards.com/websites/?page=2")
  /\ count_occ string_dec (detail_gets (snd Demo.full_run))
       "https://www.awwwards.com/sites/beta" = 1%nat
  /\ count_occ string_dec
       (keys [("https://www.awwwards.com/sites/alpha",
               Some "https://alpha.example/");
              ("https://www.awwwards.com/sites/beta", None);
              ("https://www.awwwards.com/sites/gamma", None);
              ("https://www.awwwards.com/sites/delta", None);
              ("https://www.awwwards.com/sites/epsilon",
               Some "https://epsilon.example/")])
       "https://www.awwwards.com/sites/beta" = 1%nat
  /\ NoDup
       (keys [("https://www.awwwards.com/sites/alpha",
               Some "https://alpha.example/");
              ("https://www.awwwards.com/sites/beta", None);
              ("https://www.awwwards.com/sites/gamma", None);
              ("https://www.awwwards.com/sites/delta", None);
              ("https://www.awwwards.com/sites/epsilon",
               Some "https://epsilon.example/")])
  /\ (no_query "https://www.awwwards.com/sites/beta"
      /\ ~ In "https://www.awwwards.com/sites/beta"
             (listing_gets (snd Demo.full_run))).
Proof.
  assert (E : snd Demo.full_run
              = [] ++ EGet Listing "https://www.awwwards.com/websites/?page=1"
                :: [EGet Detail "https://www.awwwards.com/sites/alpha";
                    EGet Detail "https://www.awwwards.com/sites/beta"]
                ++ EGet Listing "https://www.awwwards.com/websites/?page=2"
                :: [EGet Detail "https://www.awwwards.com/sites/gamma";
                    EGet Detail "https://www.awwwards.com/sites/delta";
                    EGet Detail "https://www.awwwards.com/sites/epsilon"])
    by reflexivity.
  assert (H1 : In "https://www.awwwards.com/sites/beta"
                 (links_at (W := Demo.world)
                    "https://www.awwwards.com/websites/?page=1"))
    by (right; left; reflexivity).
  assert (H2 : In "https://www.awwwards.com/sites/beta"
                 (links_at (W := Demo.world)
                    "https://www.awwwards.com/websites/?page=2"))
    by (left; reflexivity).
  split; [exact E|]. split; [exact H1|]. split; [exact H2|].
  pose proof (proj1 (proj2 (proj2 (detail_page_fetched_once (W := Demo.world)
                                     [1%Z; 2%Z] 0 None)))
                _ _ _ _ _ _ E H1 H2)
    as [C1 C2].
  split; [exact C1|]. split; [exact (C2 _ eq_refl)|]. split.
  - exact (proj1 (proj1 (proj2 (detail_page_fetched_once (W := Demo.world)
                                  [1%Z; 2%Z] 0 None)) _ eq_refl)).
  - apply (proj2 (proj2 (proj2 (detail_page_fetched_once (W := Demo.world)
                                  [1%Z; 2%Z] 0 None)))).
    right. left. reflexivity.
Defined.

(** ** The cap *)

Section Cap.

Context {W : World}.
Variable delay : Q.
Variable n : Z.
Hypothesis n_positive : (0 < n)%Z.










End Cap.

(** ** The keys of a crawl that runs to its end *)

Section Discovery.

Context {W : World}.
Variable delay : Q.
Variable max_sites : option Z.

Lemma filter_all {A : Type} (p : A -> bool) (l : list A) :
  (forall x, In x l -> p x = true) -> filter p l = l.
Proof.
  induction l as [|y l IH]; simpl; intros H; [reflexivity|].
  rewrite (H y (or_introl eq_refl)), IH; [reflexivity|].
  intros x Hx. apply H. right. exact Hx.
Qed.

Lemma first_occurrences_id (l : list string) :
  NoDup l -> first_occurrences l = l.
Proof.
  induction 1 as [|x l Hx _ IH]; simpl; [reflexivity|].
  rewrite IH, filter_all; [reflexivity|].
  intros y Hy. destruct (String.eqb_spec y x); [subst; contradiction|].
  reflexivity.
Qed.

Lemma mem_ext (x : string) (l l' : list string) :
  (In x l <-> In x l') -> Urllib.mem x l = Urllib.mem x l'.
Proof.
  intros H. destruct (Urllib.mem x l) eqn:E.
  - symmetry. apply mem_In, H, mem_In, E.
  - symmetry. apply mem_not_In. intros I.
    apply mem_not_In in E. apply E, H, I.
Qed.

Lemma first_occurrences_app_idem (a b : list string) :
  first_occurrences (first_occurrences a ++ b) = first_occurrences (a ++ b).
Proof.
  induction b as [|x b IH] using rev_ind.
  - rewrite !app_nil_r. apply first_occurrences_id, first_occurrences_NoDup.
  - rewrite !app_assoc, !first_occurrences_snoc, IH. f_equal.
    rewrite (mem_ext x (first_occurrences a ++ b) (a ++ b)); [reflexivity|].
    rewrite !in_app_iff, first_occurrences_In. tauto.
Qed.

Lemma mem_keys (u : string) (d : dict) : Urllib.mem u (keys d) = dict_in u d.
Proof.
  destruct (dict_in u d) eqn:D.
  - apply mem_In, dict_in_keys, D.
  - apply mem_not_In, dict_in_false, D.
Qed.

Lemma visit_next_keys (u : string) (st st' : state) :
  NoDup (keys (results st)) ->
  visit delay max_sites u st = Next st' ->
  keys (results st') = first_occurrences (keys (results st) ++ [u]).
Proof.
  intros N. rewrite first_occurrences_snoc, (first_occurrences_id _ N),
    mem_keys, visit_spec.
  destruct (dict_in u (results st)).
  - intros E. injection E as <-. rewrite app_nil_r. reflexivity.
  - destruct (negative delay); [discriminate|]. cbv zeta.
    destruct (cap_reached max_sites _); [discriminate|].
    intros E. injection E as <-. simpl. apply keys_app.
Qed.

Lemma for_sites_keys (links : list string) :
  forall st st',
    NoDup (keys (results st)) ->
    for_sites delay max_sites links st = Next st' ->
    keys (results st') = first_occurrences (keys (results st) ++ links).
Proof.
  induction links as [|u links IH]; intros st st' N H; simpl in H.
  - injection H as <-. rewrite app_nil_r. symmetry.
    apply first_occurrences_id, N.
  - destruct (visit delay max_sites u st) as [st1| |] eqn:V;
      try discriminate H.
    pose proof (visit_next_keys _ _ _ N V) as K.
    assert (N1 : NoDup (keys (results st1)))
      by (rewrite K; apply first_occurrences_NoDup).
    rewrite (IH _ _ N1 H), K, first_occurrences_app_idem, <- app_assoc.
    reflexivity.
Qed.

Lemma visit_page_keys (page : Z) (st st' : state) :
  NoDup (keys (results st)) ->
  visit_page delay max_sites page st = Next st' ->
  keys (results st')
  = first_occurrences
      (keys (results st) ++ links_at (LISTING_TEMPLATE page)).
Proof.
  intros N. unfold visit_page, links_at.
  destruct (fetch_html (LISTING_TEMPLATE page)) as [html|e]; [|discriminate].
  destruct (extract_site_links html) as [links|e]; [|discriminate].
  intros H.
  exact (for_sites_keys links (log (EGet Listing (LISTING_TEMPLATE page)) st)
           _ N H).
Qed.

Lemma for_pages_keys (pages : list Z) :
  forall st st',
    NoDup (keys (results st)) ->
    for_pages delay max_sites pages st = Next st' ->
    keys (results st')
    = first_occurrences
        (keys (results st)
         ++ flat_map (fun page => links_at (LISTING_TEMPLATE page)) pages).
Proof.
  induction pages as [|p pages IH]; intros st st' N H; simpl in H.
  - injection H as <-. simpl. rewrite app_nil_r. symmetry.
    apply first_occurrences_id, N.
  - destruct (visit_page delay max_sites p st) as [st1| |] eqn:V;
      try discriminate H.
    pose proof (visit_page_keys _ _ _ N V) as K.
    assert (N1 : NoDup (keys (results st1)))
      by (rewrite K; apply first_occurrences_NoDup).
    rewrite (IH _ _ N1 H), K, first_occurrences_app_idem. simpl.
    rewrite <- app_assoc. reflexivity.
Qed.

End Discovery.

Section Uncapped.

Context {W : World}.
Variable delay : Q.

Lemma for_pages_uncapped (pages : list Z) (st : state) :
  match for_pages delay None pages st with
  | Return _ => False
  | _ => True
  end.
Proof.
  pose proof (for_pages_rule delay None (fun _ => True)
                (fun f => match f with Return _ => False | _ => True end))
    as R.
  assert (G : match for_pages delay None pages st with
              | Next _ => True
              | stop => match stop with Return _ => False | _ => True end
              end).
  { apply R; [| |exact I].
    - intros u s _. rewrite visit_spec.
      destruct (dict_in u (results s)); [exact I|].
      destruct (negative delay); exact I.
    - intros l s _. split; [exact I|]. intros e. exact I. }
  destruct (for_pages delay None pages st); exact G.
Qed.

(** A crawl without a cap that returns has run every loop to its end. *)
Lemma scrape_uncapped_returns (pages : list Z) (m0 : dict) (tr0 : list event) :
  scrape_awwwards pages delay None = (Returns m0, tr0) ->
  exists st0,
    for_pages delay None pages (mkState [] []) = Next st0
    /\ results st0 = m0 /\ trace st0 = tr0.
Proof.
  unfold scrape_awwwards.
  pose proof (for_pages_uncapped pages (mkState [] [])) as U.
  destruct (for_pages delay None pages (mkState [] [])) as [st|st|e st];
    simpl; intros H; [|destruct U|discriminate H].
  injection H as <- <-. exists st. auto.
Qed.

Lemma scrape_uncapped_keys (pages : list Z) (m0 : dict) (tr0 : list event) :
  scrape_awwwards pages delay None = (Returns m0, tr0) ->
  keys m0 = discovered pages.
Proof.
  intros H. destruct (scrape_uncapped_returns _ _ _ H) as [st0 [F [<- _]]].
  apply (for_pages_keys delay None pages (mkState [] []) st0);
    [apply NoDup_nil | exact F].
Qed.

End Uncapped.




(** ** Failures *)

Section Failures.

Context {W : World}.
Variable delay : Q.
Variable max_sites : option Z.





End Failures.



(** ** The command line *)

Section Main.

Context {W : World}.

Lemma range_In (lo hi p : Z) : In p (range lo hi) <-> (lo <= p < hi)%Z.
Proof.
  unfold range. rewrite in_map_iff. split.
  - intros [i [<- Hi]]. apply in_seq in Hi. lia.
  - intros H. exists (Z.to_nat (p - lo)). split; [lia|].
    apply in_seq. lia.
Qed.


Lemma main_invalid (args : Namespace) :
  let last :=
    match end_page args with
    | Some e => e
    | None => start_page args
    end in
  (start_page args < 1 \/ last < start_page args)%Z ->
  main args = (Ok 1%Z, [EStderr "Invalid page range provided."]).
Proof.
  intros last H. unfold main. fold last.
  destruct (Z.ltb_spec (start_page args) 1); [reflexivity|].
  destruct (Z.ltb_spec last (start_page args)); [reflexivity|].
  lia.
Qed.

Lemma main_valid (args : Namespace) :
  let last :=
    match end_page args with
    | Some e => e
    | None => start_page args
    end in
  (1 <= start_page args <= last)%Z ->
  main args
  = match scrape_awwwards (range (start_page args) (last + 1))
            (arg_delay args) (arg_max_sites args) with
    | (Raises e, tr) => (Raise e, tr)
    | (Returns results, tr) =>
        match output args with
        | Some path =>
            if PyStr.truthy path
            then if can_open path then (Ok 0%Z, tr ++ [EFile path results])
                 else (Raise OSError, tr)
            else (Ok 0%Z, tr ++ [EStdout results])
        | None => (Ok 0%Z, tr ++ [EStdout results])
        end
    end.
Proof.
  intros last H. unfold main. fold last.
  destruct (Z.ltb_spec (start_page args) 1); [lia|].
  destruct (Z.ltb_spec last (start_page args)); [lia|].
  reflexivity.
Qed.

End Main.




(** * Further properties of the program *)

(** ** When [extract_site_links] raises *)

Section ExtractionErrors.

Context {W : World}.








End ExtractionErrors.





(** ** How many links, and links of a document in two parts *)

Section ExtractionShape.

Context {W : World}.

Lemma first_occurrences_length (l : list string) :
  (length (first_occurrences l) <= length l)%nat.
Proof.
  induction l as [|x l IH]; simpl; [lia|].
  pose proof (filter_length_le (fun y => negb (y =? x)%string)
                (first_occurrences l)).
  lia.
Qed.

Lemma first_occurrences_app (a b : list string) :
  first_occurrences (a ++ b)
  = first_occurrences a
    ++ filter (fun y => negb (Urllib.mem y a)) (first_occurrences b).
Proof.
  induction a as [|x a IH]; simpl.
  - symmetry. apply filter_all. reflexivity.
  - rewrite IH, filter_app, filter_twice. do 2 f_equal.
    apply filter_ext. intros y. unfold Urllib.mem. simpl.
    rewrite negb_orb, andb_comm. reflexivity.
Qed.

Lemma first_occurrences_map_length (g : string -> string) (l : list string) :
  (length (first_occurrences (map g l)) <= length (first_occurrences l))%nat.
Proof.
  rewrite <- (length_map g (first_occurrences l)).
  apply NoDup_incl_length; [apply first_occurrences_NoDup|].
  intros u Hu. apply (proj1 (first_occurrences_In _ _)) in Hu.
  apply (proj1 (in_map_iff _ _ _)) in Hu. destruct Hu as [h [<- Hh]].
  apply in_map, first_occurrences_In, Hh.
Qed.

Lemma collect_links_app (x y : list anchor) :
  forall acc,
    collect_links (x ++ y) acc
    = do r <- collect_links x acc; collect_links y r.
Proof.
  induction x as [|a x IH]; intros acc; [reflexivity|].
  rewrite <- app_comm_cons, !collect_links_cons.
  destruct (eligible a); [|apply IH].
  destruct (tag_href a) as [href|]; [|apply IH].
  destruct (absolute_of href); unfold bind; [apply IH | reflexivity].
Qed.

(** The raw list of the first loop is the selected hrefs, each resolved. *)
Lemma collect_links_map (anchors : list anchor) (raw : list string) :
  collect_links (filter eligible anchors) [] = Ok raw ->
  raw = map (fun href => match absolute_of href with
                         | Ok u => u
                         | Raise _ => EmptyString
                         end)
            (selected_hrefs anchors).
Proof.
  unfold selected_hrefs. revert raw.
  induction anchors as [|a more IH]; intros raw H.
  - injection H as <-. reflexivity.
  - simpl in *. destruct (eligible a) eqn:E; [|exact (IH raw H)].
    rewrite collect_links_cons, E in H.
    destruct (eligible_href _ E) as [href [Hh _]]. rewrite Hh in H.
    simpl. rewrite Hh. simpl.
    destruct (absolute_of href) as [u|e]; unfold bind in H; [|discriminate H].
    rewrite collect_links_acc in H.
    destruct (collect_links (filter eligible more) []) as [r|e];
      unfold bind in H; [|discriminate H].
    injection H as <-. simpl. f_equal. apply IH. reflexivity.
Qed.

Lemma selected_hrefs_length (soup : list anchor) :
  (length (selected_hrefs soup) <= length soup)%nat.
Proof.
  unfold selected_hrefs.
  induction soup as [|a soup IH]; simpl; [lia|].
  destruct (eligible a); [|lia]. simpl. rewrite length_app.
  destruct (tag_href a); simpl; lia.
Qed.

End ExtractionShape.

(** X3.  [extract_site_links] returns at most one link per distinct href
    among the selected anchors, hence no more links than the document has
    anchors. *)
Theorem extract_site_links_one_link_per_href {W : World}
  (listing_html : string) (links : list string) :
  extract_site_links listing_html = Ok links ->
  (length links
   <= length (first_occurrences (selected_hrefs (BeautifulSoup listing_html))))%nat
  /\ (length links <= length (BeautifulSoup listing_html))%nat.
Proof.
  rewrite extract_site_links_unfold. intros H.
  destruct (collect_links (filter eligible (BeautifulSoup listing_html)) [])
    as [raw|e] eqn:C; unfold bind in H; [|discriminate H].
  injection H as <-. rewrite (collect_links_map _ _ C).
  pose proof (first_occurrences_map_length
                (fun href => match absolute_of href with
                             | Ok u => u
                             | Raise _ => EmptyString
                             end)
                (selected_hrefs (BeautifulSoup listing_html))) as L1.
  pose proof (first_occurrences_length
                (selected_hrefs (BeautifulSoup listing_html))) as L2.
  pose proof (selected_hrefs_length (BeautifulSoup listing_html)) as L3.
  split; lia.
Qed.

Lemma extract_site_links_one_link_per_href_witness :
  extract_site_links (W := Demo.world) "listing-1"
  = Ok ["https://www.awwwards.com/sites/alpha";
        "https://www.awwwards.com/sites/beta"]
  /\ (2 <= length (first_occurrences
                     (selected_hrefs
                        (BeautifulSoup (World := Demo.world) "listing-1"))))%nat
  /\ (2 <= length (BeautifulSoup (World := Demo.world) "listing-1"))%nat.
Proof.
  split; [reflexivity|].
  exact (extract_site_links_one_link_per_href (W := Demo.world)
           "listing-1" _ eq_refl).
Defined.

(** X4.  For a document whose anchors are those of a first part followed by
    those of a second part, [extract_site_links] returns the links of the
    first part followed by the links of the second part that the first part
    does not have. *)
Theorem extract_site_links_of_two_parts {W : World}
  (whole first second : string) (links1 links2 : list string) :
  BeautifulSoup whole = BeautifulSoup first ++ BeautifulSoup second ->
  extract_site_links first = Ok links1 ->
  extract_site_links second = Ok links2 ->
  extract_site_links whole
  = Ok (links1 ++ filter (fun u => negb (Urllib.mem u links1)) links2).
Proof.
  rewrite !extract_site_links_unfold. intros S H1 H2.
  rewrite S, filter_app, collect_links_app.
  destruct (collect_links (filter eligible (BeautifulSoup first)) [])
    as [r1|e] eqn:C1; unfold bind in *; [|discriminate H1].
  rewrite collect_links_acc.
  destruct (collect_links (filter eligible (BeautifulSoup second)) [])
    as [r2|e] eqn:C2; unfold bind in *; [|discriminate H2].
  injection H1 as <-. injection H2 as <-.
  rewrite first_occurrences_app. do 2 f_equal.
  apply filter_ext. intros u. f_equal. apply mem_ext.
  symmetry. apply first_occurrences_In.
Qed.

Lemma extract_site_links_of_two_parts_witness :
  BeautifulSoup (World := Faulty.world) "both-halves"
  = BeautifulSoup (World := Faulty.world) "first-half"
    ++ BeautifulSoup (World := Faulty.world) "second-half"
  /\ extract_site_links (W := Faulty.world) "first-half"
     = Ok ["https://www.awwwards.com/sites/a";
           "https://www.awwwards.com/sites/b"]
  /\ extract_site_links (W := Faulty.world) "second-half"
     = Ok ["https://www.awwwards.com/sites/b";
           "https://www.awwwards.com/sites/c"]
  /\ extract_site_links (W := Faulty.world) "both-halves"
     = Ok (["https://www.awwwards.com/sites/a";
            "https://www.awwwards.com/sites/b"]
           ++ filter (fun u => negb (Urllib.mem u
                                       ["https://www.awwwards.com/sites/a";
                                        "https://www.awwwards.com/sites/b"]))
                ["https://www.awwwards.com/sites/b";
                 "https://www.awwwards.com/sites/c"]).
Proof.
  split; [reflexivity|]. split; [reflexivity|]. split; [reflexivity|].
  exact (extract_site_links_of_two_parts (W := Faulty.world)
           "both-halves" "first-half" "second-half" _ _
           eq_refl eq_refl eq_refl).
Defined.

(** ** Hrefs rooted at the site *)

Section Rooted.

Context {W : World}.



















End Rooted.



(** ** The returned map, entry by entry *)

Section WholeMap.

Context {W : World}.
Variable delay : Q.
Variable max_sites : option Z.

Lemma entries_of_keys (d : dict) :
  (forall k v, In (k, v) d -> v = detail_value k) -> d = entries_of (keys d).
Proof.
  induction d as [|[k v] d IH]; intros H; [reflexivity|].
  simpl. rewrite <- (H k v (or_introl eq_refl)). f_equal.
  apply IH. intros k' v' I. apply H. right. exact I.
Qed.

Lemma visit_keys (u : string) (st : state) :
  NoDup (keys (results st)) ->
  keys (results (flow_state (visit delay max_sites u st)))
  = first_occurrences (keys (results st) ++ [u]).
Proof.
  intros N. rewrite first_occurrences_snoc, (first_occurrences_id _ N),
    mem_keys, visit_spec.
  destruct (dict_in u (results st)); [rewrite app_nil_r; reflexivity|].
  destruct (negative delay); [apply keys_app|]. cbv zeta.
  destruct (cap_reached max_sites _); apply keys_app.
Qed.

(** The keys after the inner loop: the keys before it and the links it got
    through, each at its first occurrence. *)
Lemma for_sites_keys_done (links : list string) :
  forall st,
    NoDup (keys (results st)) ->
    exists done rest,
      links = done ++ rest
      /\ keys (results (flow_state (for_sites delay max_sites links st)))
         = first_occurrences (keys (results st) ++ done)
      /\ (forall st', for_sites delay max_sites links st = Next st' ->
                      rest = []).
Proof.
  induction links as [|u links IH]; intros st N.
  - exists [], []. simpl. rewrite app_nil_r.
    rewrite (first_occurrences_id _ N). auto.
  - pose proof (visit_keys u st N) as K. simpl.
    destruct (visit delay max_sites u st) as [st1|st1|e st1] eqn:V;
      simpl in K.
    + assert (N1 : NoDup (keys (results st1)))
        by (rewrite K; apply first_occurrences_NoDup).
      destruct (IH st1 N1) as [done [rest [E [K1 R]]]].
      exists (u :: done), rest. split; [simpl; congruence|]. split.
      * rewrite K1, K, first_occurrences_app_idem, <- app_assoc. reflexivity.
      * exact R.
    + exists [u], links. split; [reflexivity|].
      split; [exact K | discriminate].
    + exists [u], links. split; [reflexivity|].
      split; [exact K | discriminate].
Qed.

Lemma visit_page_keys_done (page : Z) (st : state) :
  NoDup (keys (results st)) ->
  exists done rest,
    links_at (LISTING_TEMPLATE page) = done ++ rest
    /\ keys (results (flow_state (visit_page delay max_sites page st)))
       = first_occurrences (keys (results st) ++ done)
    /\ (forall st', visit_page delay max_sites page st = Next st' ->
                    rest = []).
Proof.
  intros N. unfold visit_page, links_at.
  assert (Z0 : exists done rest : list string,
             [] = done ++ rest
             /\ keys (results st) = first_occurrences (keys (results st) ++ done)
             /\ (forall st' : state,
                   Throw ValueError st = Next st' -> rest = [])).
  { exists [], []. simpl. rewrite app_nil_r, (first_occurrences_id _ N).
    split; [reflexivity|]. split; [reflexivity | discriminate]. }
  destruct (fetch_html (LISTING_TEMPLATE page)) as [html|e].
  - destruct (extract_site_links html) as [links|e].
    + exact (for_sites_keys_done links
               (log (EGet Listing (LISTING_TEMPLATE page)) st) N).
    + destruct Z0 as [done [rest [E [K _]]]]. exists done, rest.
      split; [exact E|]. split; [exact K | discriminate].
  - destruct Z0 as [done [rest [E [K _]]]]. exists done, rest.
    split; [exact E|]. split; [exact K | discriminate].
Qed.

Lemma for_pages_keys_done (pages : list Z) :
  forall st,
    NoDup (keys (results st)) ->
    exists done rest,
      flat_map (fun page => links_at (LISTING_TEMPLATE page)) pages
      = done ++ rest
      /\ keys (results (flow_state (for_pages delay max_sites pages st)))
         = first_occurrences (keys (results st) ++ done).
Proof.
  induction pages as [|p pages IH]; intros st N.
  - exists [], []. simpl. rewrite app_nil_r, (first_occurrences_id _ N). auto.
  - destruct (visit_page_keys_done p st N) as [done1 [rest1 [E1 [K1 R1]]]].
    simpl.
    destruct (visit_page delay max_sites p st) as [st1|st1|e st1] eqn:V;
      simpl in K1.
    + rewrite (R1 st1 eq_refl), app_nil_r in E1.
      assert (N1 : NoDup (keys (results st1)))
        by (rewrite K1; apply first_occurrences_NoDup).
      destruct (IH st1 N1) as [done2 [rest2 [E2 K2]]].
      exists (done1 ++ done2), rest2. split.
      * rewrite E1, E2, app_assoc. reflexivity.
      * rewrite K2, K1, first_occurrences_app_idem, <- app_assoc.
        reflexivity.
    + exists done1,
        (rest1 ++ flat_map (fun page => links_at (LISTING_TEMPLATE page)) pages).
      split; [rewrite E1, app_assoc; reflexivity | exact K1].
    + exists done1,
        (rest1 ++ flat_map (fun page => links_at (LISTING_TEMPLATE page)) pages).
      split; [rewrite E1, app_assoc; reflexivity | exact K1].
Qed.

End WholeMap.

(** X6.  The map [scrape_awwwards] returns holds, for each key, what the
    detail page of that key gives; its keys are an initial segment of the
    detail URLs the requested listing pages link to, in order of first
    discovery; and without a cap it is the whole of that list. *)
Theorem returned_map_is_initial_segment_of_discovery {W : World}
  (pages : list Z) (delay : Q) (max_sites : option Z)
  (m : dict) (tr : list event) :
  scrape_awwwards pages delay max_sites = (Returns m, tr) ->
  m = entries_of (keys m)
  /\ (exists rest, discovered pages = keys m ++ rest)
  /\ (max_sites = None -> m = entries_of (discovered pages)).
Proof.
  intros H.
  assert (Hm : m = results (flow_state
                 (for_pages delay max_sites pages (mkState [] []))))
    by (apply scrape_returns; rewrite H; reflexivity).
  pose proof (scrape_consistent delay max_sites pages) as [_ [_ [V _]]].
  rewrite <- Hm in V.
  assert (E : m = entries_of (keys m)) by (apply entries_of_keys, V).
  split; [exact E|]. split.
  - destruct (for_pages_keys_done delay max_sites pages (mkState [] [])
                (NoDup_nil _)) as [done [rest [F K]]].
    rewrite <- Hm in K. simpl in K. unfold discovered.
    rewrite F, first_occurrences_app, K. eauto.
  - intros ->. rewrite <- (scrape_uncapped_keys _ _ _ _ H). exact E.
Qed.

Lemma returned_map_is_initial_segment_of_discovery_witness :
  scrape_awwwards (W := Demo.world) [1%Z; 2%Z] 0 (Some 2%Z)
  = (Returns
       [("https://www.awwwards.com/sites/alpha", Some "https://alpha.example/");
        ("https://www.awwwards.com/sites/beta", None)],
     [EGet Listing "https://www.awwwards.com/websites/?page=1";
      EGet Detail "https://www.awwwards.com/sites/alpha";
      EGet Detail "https://www.awwwards.com/sites/beta"])
  /\ exists rest,
       discovered (W := Demo.world) [1%Z; 2%Z]
       = keys [("https://www.awwwards.com/sites/alpha",
                Some "https://alpha.example/");
               ("https://www.awwwards.com/sites/beta", None)]
         ++ rest.
Proof.
  split; [reflexivity|].
  exact (proj1 (proj2 (returned_map_is_initial_segment_of_discovery
                         (W := Demo.world) [1%Z; 2%Z] 0 (Some 2%Z) _ _
                         eq_refl))).
Defined.

(** ** The listing requests of a crawl *)

Section ListingOrder.

Context {W : World}.
Variable delay : Q.
Variable max_sites : option Z.

(** The outer loop asks for the pages one by one, in the order given, until
    it stops; when it runs to its end it has asked for all of them. *)
Lemma for_pages_listing_prefix (pages : list Z) :
  forall st,
    exists done rest,
      pages = done ++ rest
      /\ listing_gets (trace (flow_state (for_pages delay max_sites pages st)))
         = listing_gets (trace st) ++ map LISTING_TEMPLATE done
      /\ (forall st', for_pages delay max_sites pages st = Next st' ->
                      rest = [])
      /\ (forall e st', for_pages delay max_sites pages st = Throw e st' ->
                        done <> []).
Proof.
  induction pages as [|p pages IH]; intros st.
  - exists [], []. simpl. rewrite app_nil_r.
    repeat split; try reflexivity; discriminate.
  - pose proof (visit_page_listing_gets delay max_sites p st) as V. simpl.
    destruct (visit_page delay max_sites p st) as [st1|st1|e st1];
      simpl in V.
    + destruct (IH st1) as [done [rest [E [L [R T]]]]].
      exists (p :: done), rest. split; [simpl; congruence|]. split.
      * rewrite L, V, <- app_assoc. reflexivity.
      * split; [exact R | discriminate].
    + exists [p], pages. split; [reflexivity|]. split; [exact V|].
      split; discriminate.
    + exists [p], pages. split; [reflexivity|]. split; [exact V|].
      split; discriminate.
Qed.

End ListingOrder.

(** X7.  [scrape_awwwards] requests listing pages in the order of [pages],
    without skipping one, up to the page where it stops: the listing URLs of
    its trace are those of an initial segment of [pages].  A crawl without a
    cap that returns has requested every page; a crawl that raises has
    requested at least one. *)
Theorem listing_pages_requested_in_order {W : World}
  (pages : list Z) (delay : Q) (max_sites : option Z)
  (o : outcome) (tr : list event) :
  scrape_awwwards pages delay max_sites = (o, tr) ->
  exists done rest,
    pages = done ++ rest
    /\ listing_gets tr = map LISTING_TEMPLATE done
    /\ (max_sites = None -> (exists m, o = Returns m) -> rest = [])
    /\ (forall e, o = Raises e -> done <> []).
Proof.
  unfold scrape_awwwards. intros H.
  destruct (for_pages_listing_prefix delay max_sites pages (mkState [] []))
    as [done [rest [E [L [R T]]]]].
  exists done, rest. split; [exact E|].
  assert (Ht : tr = trace (flow_state
                 (for_pages delay max_sites pages (mkState [] []))))
    by (rewrite <- finish_trace, H; reflexivity).
  split; [rewrite Ht; exact L|]. split.
  - intros -> [m ->].
    pose proof (for_pages_uncapped delay pages (mkState [] [])) as U.
    destruct (for_pages delay None pages (mkState [] [])) as [st|st|e st];
      [exact (R st eq_refl) | destruct U | discriminate H].
  - intros e ->.
    destruct (for_pages delay max_sites pages (mkState [] []))
      as [st|st|e' st]; try discriminate H.
    exact (T e' st eq_refl).
Qed.

Lemma listing_pages_requested_in_order_witness :
  exists done rest,
    [1%Z; 3%Z; 2%Z] = done ++ rest
    /\ listing_gets
         [EGet Listing "https://www.awwwards.com/websites/?page=1";
          EGet Detail "https://www.awwwards.com/sites/alpha";
          EGet Detail "https://www.awwwards.com/sites/beta";
          EGet Listing "https://www.awwwards.com/websites/?page=3"]
       = map LISTING_TEMPLATE done
    /\ (@None Z = None -> (exists m, Raises RequestException = Returns m) ->
        rest = [])
    /\ (forall e, Raises RequestException = Raises e -> done <> []).
Proof.
  exact (listing_pages_requested_in_order (W := Demo.world)
           [1%Z; 3%Z; 2%Z] 0 None _ _ eq_refl).
Defined.

(** ** The pages [main] asks for *)

Section MainPages.

Context {W : World}.

Lemma scrape_listing_prefix (pages : list Z) (delay : Q)
  (max_sites : option Z) :
  exists done rest,
    pages = done ++ rest
    /\ listing_gets (snd (scrape_awwwards pages delay max_sites))
       = map LISTING_TEMPLATE done.
Proof.
  destruct (for_pages_listing_prefix delay max_sites pages (mkState [] []))
    as [done [rest [E [L _]]]].
  exists done, rest. split; [exact E|].
  unfold scrape_awwwards. rewrite finish_trace. exact L.
Qed.

Lemma listing_gets_output (tr : list event) (e : event) :
  is_output e = true -> listing_gets (tr ++ [e]) = listing_gets tr.
Proof.
  intros O. rewrite listing_gets_app.
  destruct e; try discriminate O; simpl; apply app_nil_r.
Qed.

End MainPages.

(** X8.  The listing pages [main] requests are those of an initial segment
    of [range(start_page, end_page + 1)], in increasing order, [end_page]
    being the start page when it is left out; so every page requested lies
    between the two, and none is requested when the range is refused. *)
Theorem main_requests_pages_of_range {W : World} (args : Namespace) :
  let last :=
    match end_page args with
    | Some e => e
    | None => start_page args
    end in
  exists done rest,
    range (start_page args) (last + 1) = done ++ rest
    /\ listing_gets (snd (main args)) = map LISTING_TEMPLATE done
    /\ forall p, In p done -> (1 <= start_page args <= p)%Z /\ (p <= last)%Z.
Proof.
  intros last.
  destruct (Z_lt_ge_dec (start_page args) 1) as [A|A];
    [|destruct (Z_lt_ge_dec last (start_page args)) as [B|B]].
  - exists [], (range (start_page args) (last + 1)).
    rewrite (main_invalid args (or_introl A)). simpl.
    split; [reflexivity|]. split; [reflexivity|]. intros p [].
  - exists [], (range (start_page args) (last + 1)).
    rewrite (main_invalid args (or_intror B)). simpl.
    split; [reflexivity|]. split; [reflexivity|]. intros p [].
  - assert (V : (1 <= start_page args <= last)%Z) by lia.
    destruct (scrape_listing_prefix (range (start_page args) (last + 1))
                (arg_delay args) (arg_max_sites args))
      as [done [rest [E L]]].
    exists done, rest. split; [exact E|]. split.
    + rewrite (main_valid args V). fold last.
      destruct (scrape_awwwards (range (start_page args) (last + 1))
                  (arg_delay args) (arg_max_sites args)) as [[m|e] tr];
        simpl in L; [|exact L].
      destruct (output args) as [path|];
        [destruct (PyStr.truthy path); [destruct (can_open path)|]|];
        simpl; try exact L;
        rewrite listing_gets_output; try reflexivity; exact L.
    + intros p Hp.
      assert (R : In p (range (start_page args) (last + 1)))
        by (rewrite E; apply in_or_app; left; exact Hp).
      apply range_In in R. lia.
Qed.
